(** * adeptRL: peer-to-peer bootstrap and parameter synchronisation

    A shallow embedding of

    - [adept/scripts/p2p.py], function [main], up to and including the
      initial parameter synchronisation (lines 40-84), and
    - [adept/network/base/base.py], method [BaseNetwork.sync],

    together with the small part of their collaborators that these two
    pieces of code observe: the memory of a peer (tensors and the numpy
    arrays that view them), the order in which a torch module enumerates
    its parameters and its state dictionary, the collective calls of
    mpi4py and of torch.distributed, and the directory creation of [os].

    What the communication libraries do with a call that the rest of the
    group does not match (a message of another size, a root that is not
    in the group, a partner that never comes) is not decided by these
    two files, and differs between libraries and releases.  It is a
    parameter of the development ([mpi_unfit], [c10d]): every result
    holds for each way of filling it in.  The helpers of the repository
    that [main] calls and that are not in the two files
    ([make_log_id_from_timestamp], [make_env], [get_head_shapes],
    [make_network]) and [torch.manual_seed] are parameters as well.

    Python integers are unbounded, so seeds are in [Z]; ranks, handles
    and addresses are natural numbers. *)

From Stdlib Require Import ZArith Lia.
From Stdlib.Strings Require Import Byte Ascii String.
From stdpp Require Import base decidable option list numbers strings pretty.

Local Open Scope string_scope.
Local Open Scope list_scope.
Local Open Scope nat_scope.

(** ** Outcomes and the peer monad

    A Python call either returns, raises, or never returns because the
    process is blocked in a collective call whose partner never arrives.
    The state reached so far is kept in every case.  [Killed] stands for
    a library ending the process on the spot: it is no exception, but
    nothing in the two files catches an exception either, so the rest of
    the call is skipped alike. *)

Inductive Exn :=
  | FileExistsError
  | PermissionError
  | AttributeError
  | TypeError
  | ValueError
  | RuntimeError
  | MPI_ERR_TRUNCATE
  | MPI_ERR_OTHER
  | Killed.

Inductive outcome (A : Type) :=
  | Ret (a : A)
  | Raise (e : Exn)
  | Stall.
Arguments Ret {A} a.
Arguments Raise {A} e.
Arguments Stall {A}.

Definition M (S A : Type) : Type := S → S * outcome A.

Definition ret {S A} (a : A) : M S A := λ s, (s, Ret a).

Definition bind {S A B} (c : M S A) (k : A → M S B) : M S B :=
  λ s, match c s with
       | (s', Ret a) => k a s'
       | (s', Raise e) => (s', Raise e)
       | (s', Stall) => (s', Stall)
       end.

Definition raise {S A} (e : Exn) : M S A := λ s, (s, Raise e).
Definition stall {S A} : M S A := λ s, (s, Stall).
(** Ending the way [o] says. *)
Definition finish {S A} (o : outcome A) : M S A := λ s, (s, o).
Definition gets {S A} (f : S → A) : M S A := λ s, (s, Ret (f s)).
Definition modify {S} (f : S → S) : M S unit := λ s, (f s, Ret tt).

Declare Scope peer_scope.
Delimit Scope peer_scope with peer.
Notation "'let*' x ':=' c 'in' k" := (bind c (λ x, k))
  (at level 10, x name, c at level 100, k at level 200) : peer_scope.
Notation "c ';;' k" := (bind c (λ _, k))
  (at level 100, k at level 200, right associativity) : peer_scope.
Local Open Scope peer_scope.

(** [for x in l: f(x)], collecting what [f] returns. *)
Fixpoint mapM {S A B} (f : A → M S B) (l : list A) : M S (list B) :=
  match l with
  | [] => ret []
  | x :: l' =>
      let* y := f x in
      let* ys := mapM f l' in
      ret (y :: ys)
  end.

(** [for x in l: f(x)], for its effect only. *)
Fixpoint forM_ {S A} (f : A → M S unit) (l : list A) : M S unit :=
  match l with
  | [] => ret tt
  | x :: l' => f x;; forM_ f l'
  end.

(** ** Tensors and the memory of a peer *)

Inductive Dtype := float16 | float32 | float64 | int32 | int64 | uint8.

Definition itemsize (d : Dtype) : nat :=
  match d with
  | float16 => 2
  | float32 => 4
  | float64 => 8
  | int32 => 4
  | int64 => 8
  | uint8 => 1
  end.

Inductive Device := cpu | cuda.

Record Tensor := mkTensor {
  t_shape : list nat;
  t_dtype : Dtype;
  t_device : Device;
  t_data : list byte
}.

Definition numel (shape : list nat) : nat := foldr Nat.mul 1 shape.

(** What two peers must agree on for a buffer: its shape and dtype. *)
Definition Meta : Type := list nat * Dtype.
Definition meta (t : Tensor) : Meta := (t_shape t, t_dtype t).
Definition nbytes (m : Meta) : nat := numel m.1 * itemsize m.2.

(** Python objects are reached by reference; a reference never dangles,
    so the memory is a total map from addresses to tensors. *)
Definition loc : Type := nat.
Definition Heap : Type := loc → Tensor.

Definition set_data (t : Tensor) (d : list byte) : Tensor :=
  mkTensor (t_shape t) (t_dtype t) (t_device t) d.

(** Overwriting the contents of the buffer at [l], in place. *)
Definition write_data (h : Heap) (l : loc) (d : list byte) : Heap :=
  λ l', if decide (l' = l) then set_data (h l) d else h l'.

(** ** torch.nn.Module: enumeration order

    A network is given as its module tree laid out depth first in
    registration order (the module itself, then its children; a module
    registered under two names appears under each), each module with its
    qualified prefix, its registered parameters and its registered
    buffers, both in registration order.  [parameters()] and
    [state_dict()] both walk the tree in this order. *)

Record Module := mkModule {
  m_prefix : string;
  m_parameters : list (string * loc);
  m_buffers : list (string * bool * loc)   (* name, persistent, tensor *)
}.

Definition Network : Type := list Module.

Definition qualify (prefix name : string) : string :=
  if decide (prefix = "") then name else prefix +:+ "." +:+ name.

(** [Module._named_members]: a tensor already yielded is skipped (the
    [memo] set of object identities), so tied parameters appear once. *)
Fixpoint named_members (memo : list loc) (l : list (string * loc))
  : list (string * loc) :=
  match l with
  | [] => []
  | (k, v) :: l' =>
      if decide (v ∈ memo) then named_members memo l'
      else (k, v) :: named_members (v :: memo) l'
  end.

Definition named_parameters (net : Network) : list (string * loc) :=
  named_members []
    (flat_map (λ m, map (λ kv : string * loc,
                           (qualify (m_prefix m) kv.1, kv.2))
                        (m_parameters m)) net).

Definition parameters (net : Network) : list loc :=
  map snd (named_parameters net).

(** [destination[key] = value] on an ordered dictionary: an existing key
    keeps its position, a new key goes last. *)
Fixpoint od_set {V} (d : list (string * V)) (k : string) (v : V)
  : list (string * V) :=
  match d with
  | [] => [(k, v)]
  | (k', v') :: d' =>
      if decide (k' = k) then (k, v) :: d' else (k', v') :: od_set d' k v
  end.

(** [Module._save_to_state_dict]: the module's own parameters, then its
    own persistent buffers. *)
Definition save_to_state_dict (dest : list (string * loc)) (m : Module)
  : list (string * loc) :=
  let dest :=
    foldl (λ d (kv : string * loc),
             od_set d (qualify (m_prefix m) kv.1) kv.2)
          dest (m_parameters m) in
  foldl (λ d (b : string * bool * loc),
           if b.1.2 then od_set d (qualify (m_prefix m) b.1.1) b.2 else d)
        dest (m_buffers m).

Definition state_dict (net : Network) : list (string * loc) :=
  foldl save_to_state_dict [] net.

Definition values {K V} (d : list (K * V)) : list V := map snd d.

(** The buffers a peer would put on the wire, by position. *)
Definition param_topology (h : Heap) (net : Network) : list Meta :=
  map (λ l, meta (h l)) (parameters net).

Definition state_topology (h : Heap) (net : Network)
  : list (string * Meta) :=
  map (λ kv : string * loc, (kv.1, meta (h kv.2))) (state_dict net).

(** ** Seed distribution ([p2p.py], lines 63-64) *)

Record Args := mkArgs {
  tag : string;
  mode_name : string;
  agent : string;
  vision_network : string;
  network_body : string;
  log_dir : string;
  env_id : string;
  seed : Z;
  nb_env : Z
}.

(** [p2pseed = args.seed] *)
Definition p2pseed (args : Args) : Z := seed args.

(** [seed = args.seed if rank == 0
            else args.seed + (args.nb_env * (rank - 1))] *)
Definition per_rank_seed (args : Args) (rank : Z) : Z :=
  if (rank =? 0)%Z then seed args
  else (seed args + nb_env args * (rank - 1))%Z.

(** The seeds of a group of [n] peers, by rank. *)
Definition seed_assignment (args : Args) (n : nat) : list Z :=
  map (λ r : nat, per_rank_seed args (Z.of_nat r)) (seq 0 n).

Global Instance Dtype_eq_dec : EqDecision Dtype.
Proof. solve_decision. Defined.

(** ** The process of one peer under mpi4py

    Collective calls on a communicator are matched by call order.  Only
    rank 0 is ever the root of a collective call in [main], so a peer of
    rank [r > 0] sees the group through the stream of what rank 0 has
    contributed, in call order ([p_inbox]); rank 0 records what it
    contributes ([p_sent]).  A collective call of a peer of rank [r > 0]
    whose counterpart at rank 0 never happens does not return.  In
    [main] a peer of rank [r > 0] reaches a collective call whenever
    rank 0's contributions up to it have arrived, so rank 0 is never
    kept waiting and its calls return. *)

Inductive PyObj := PyNone | PyStr (s : string).

Inductive Msg :=
  | MObj (o : PyObj)                                 (* comm.bcast *)
  | MBuf (count : nat) (dt : Dtype) (d : list byte)  (* comm.Bcast *)
  | MBarrier.                                        (* comm.Barrier *)

Inductive CollEvent :=
  | EvBcastObj (root : nat)
  | EvBcastBuf (m : Meta) (root : nat)
  | EvBarrier.

Record Fs := mkFs {
  dirs : list string;      (* the directories that exist *)
  writable : bool          (* may this process create directories *)
}.

Inductive StdoutItem := AsciiLogo | Line (s : string).

Record Peer := mkPeer {
  p_rank : nat;                  (* comm.Get_rank() *)
  p_heap : Heap;
  p_clock : string;              (* datetime.now().strftime(...) *)
  p_fs : Fs;
  p_made : list string;          (* os.makedirs calls made, newest first *)
  p_inbox : list Msg;
  p_sent : list Msg;
  p_trace : list CollEvent;      (* collective calls made, in order *)
  p_stdout : list StdoutItem
}.

Definition with_heap (f : Heap → Heap) (p : Peer) : Peer :=
  mkPeer (p_rank p) (f (p_heap p)) (p_clock p) (p_fs p) (p_made p)
         (p_inbox p) (p_sent p) (p_trace p) (p_stdout p).
Definition with_fs (f : Fs → Fs) (p : Peer) : Peer :=
  mkPeer (p_rank p) (p_heap p) (p_clock p) (f (p_fs p)) (p_made p)
         (p_inbox p) (p_sent p) (p_trace p) (p_stdout p).
Definition with_made (f : list string → list string) (p : Peer) : Peer :=
  mkPeer (p_rank p) (p_heap p) (p_clock p) (p_fs p) (f (p_made p))
         (p_inbox p) (p_sent p) (p_trace p) (p_stdout p).
Definition with_inbox (f : list Msg → list Msg) (p : Peer) : Peer :=
  mkPeer (p_rank p) (p_heap p) (p_clock p) (p_fs p) (p_made p)
         (f (p_inbox p)) (p_sent p) (p_trace p) (p_stdout p).
Definition with_sent (f : list Msg → list Msg) (p : Peer) : Peer :=
  mkPeer (p_rank p) (p_heap p) (p_clock p) (p_fs p) (p_made p)
         (p_inbox p) (f (p_sent p)) (p_trace p) (p_stdout p).
Definition with_trace (f : list CollEvent → list CollEvent) (p : Peer)
  : Peer :=
  mkPeer (p_rank p) (p_heap p) (p_clock p) (p_fs p) (p_made p)
         (p_inbox p) (p_sent p) (f (p_trace p)) (p_stdout p).
Definition with_stdout (f : list StdoutItem → list StdoutItem) (p : Peer)
  : Peer :=
  mkPeer (p_rank p) (p_heap p) (p_clock p) (p_fs p) (p_made p)
         (p_inbox p) (p_sent p) (p_trace p) (f (p_stdout p)).

Definition called (e : CollEvent) : M Peer unit :=
  modify (with_trace (λ t, t ++ [e])).
Definition send (m : Msg) : M Peer unit :=
  modify (with_sent (λ s, s ++ [m])).
Definition print (x : StdoutItem) : M Peer unit :=
  modify (with_stdout (λ o, o ++ [x])).

(** The next contribution of rank 0; none means rank 0 never made the
    matching call. *)
Definition recv : M Peer Msg :=
  λ p, match p_inbox p with
       | [] => (p, Stall)
       | m :: rest => (with_inbox (λ _, rest) p, Ret m)
       end.

(** [comm.bcast(obj, root=root)] *)
Definition comm_bcast (obj : PyObj) (root : nat) : M Peer PyObj :=
  let* r := gets p_rank in
  called (EvBcastObj root);;
  if decide (r = root) then send (MObj obj);; ret obj
  else
    let* m := recv in
    match m with
    | MObj o => ret o
    | _ => raise MPI_ERR_OTHER
    end.

(** [comm.Barrier()] *)
Definition comm_Barrier : M Peer unit :=
  let* r := gets p_rank in
  called EvBarrier;;
  if decide (r = 0) then send MBarrier
  else
    let* m := recv in
    match m with
    | MBarrier => ret tt
    | _ => raise MPI_ERR_OTHER
    end.

(** A numpy array is either a view of the memory of a tensor, or owns a
    buffer that nothing else refers to. *)
Inductive ndarray := View (l : loc) | Owned (t : Tensor).

Definition array_value (h : Heap) (a : ndarray) : Tensor :=
  match a with
  | View l => h l
  | Owned t => t
  end.

(** [v.detach().cpu().numpy()]: for a tensor in host memory [cpu()]
    returns the tensor itself and [numpy()] shares its memory; otherwise
    [cpu()] makes a copy in host memory. *)
Definition detach_cpu_numpy (v : loc) : M Peer ndarray :=
  let* t := gets (λ p, p_heap p v) in
  match t_device t with
  | cpu => ret (View v)
  | cuda => ret (Owned (mkTensor (t_shape t) (t_dtype t) cpu (t_data t)))
  end.

(** Writing into an array in place; for an array that owns its buffer
    the only reference is the caller's, which is rebound. *)
Definition fill (a : ndarray) (d : list byte) : M Peer ndarray :=
  match a with
  | View l => modify (with_heap (λ h, write_data h l d));; ret (View l)
  | Owned t => ret (Owned (set_data t d))
  end.

Section Libraries.

(** [MPI_Bcast] with a message whose byte count is not that of the
    receive buffer is an erroneous call.  What is then left in the
    buffer, and whether the call returns, raises or ends the process,
    differs between MPI libraries: given the receive buffer and the
    count, datatype and contents of the message, [mpi_unfit] says what
    the buffer holds afterwards and how the call ends. *)
Variable mpi_unfit :
  Tensor → nat → Dtype → list byte → list byte * outcome unit.

(** [comm.Bcast(buf, root=root)]: the element count and datatype are
    those of the array.  A message that fills the receive buffer
    exactly is written into it; any other is left to the library. *)
Definition comm_Bcast (buf : ndarray) (root : nat) : M Peer ndarray :=
  let* r := gets p_rank in
  let* t := gets (λ p, array_value (p_heap p) buf) in
  called (EvBcastBuf (meta t) root);;
  if decide (r = root) then
    send (MBuf (numel (t_shape t)) (t_dtype t) (t_data t));; ret buf
  else
    let* m := recv in
    match m with
    | MBuf count dt d =>
        if decide (count * itemsize dt = nbytes (meta t)) then fill buf d
        else
          let* buf' := fill buf (mpi_unfit t count dt d).1 in
          finish (mpi_unfit t count dt d).2;;
          ret buf'
    | _ => raise MPI_ERR_OTHER
    end.

(** [model_v.data.copy_(torch.from_numpy(shared_v), non_blocking=True)]:
    the source has the shape and dtype of the destination, so the copy
    is element for element; anything else is outside this model. *)
Definition copy_ (model_v : loc) (shared_v : ndarray) : M Peer unit :=
  let* s := gets (λ p, array_value (p_heap p) shared_v) in
  let* d := gets (λ p, p_heap p model_v) in
  if decide (meta s = meta d) then
    modify (with_heap (λ h, write_data h model_v (t_data s)))
  else raise RuntimeError.

(** ** [main]: synchronising the network parameters (lines 72-84) *)

Definition main_sync_params (network : Network) : M Peer unit :=
  let* rank := gets p_rank in
  if decide (rank = 0) then
    forM_ (λ v, let* a := detach_cpu_numpy v in
                let* _ := comm_Bcast a 0 in ret tt)
          (parameters network);;
    print (Line "0 variables synced")
  else
    let* variables := mapM detach_cpu_numpy (parameters network) in
    let* variables := mapM (λ v, comm_Bcast v 0) variables in
    forM_ (λ sm : ndarray * loc, copy_ sm.2 sm.1)
          (zip variables (parameters network));;
    print (Line (pretty rank +:+ " variables synced")).

(** ** [main]: the shared run identity (lines 41-60) *)

(** [posixpath.join(a, *p)] *)
Definition starts_with_sep (s : string) : bool :=
  match s with
  | String c _ => Ascii.eqb c "/"%char
  | EmptyString => false
  end.

Fixpoint ends_with_sep (s : string) : bool :=
  match s with
  | EmptyString => false
  | String c EmptyString => Ascii.eqb c "/"%char
  | String _ s' => ends_with_sep s'
  end.

Definition join_step (path b : string) : string :=
  if starts_with_sep b then b
  else if bool_decide (path = "") || ends_with_sep path then path +:+ b
  else path +:+ "/" +:+ b.

Definition os_path_join (a : string) (p : list string) : string :=
  foldl join_step a p.

(** What [join] puts between [path] and a component that follows it. *)
Definition glue (path : string) : string :=
  if bool_decide (path = "") || ends_with_sep path then "" else "/".

(** [os.makedirs(name)] with [exist_ok] left at [False].  A directory
    exists when it is listed; the intermediate directories that the call
    creates on the way are not listed separately. *)
Definition os_makedirs (name : string) : M Peer unit :=
  modify (with_made (cons name));;
  let* f := gets p_fs in
  if decide (name ∈ dirs f) then raise FileExistsError
  else if writable f then
    modify (with_fs (λ f, mkFs (name :: dirs f) (writable f)))
  else raise PermissionError.

Section RunIdentity.

(** [adept.utils.logging.make_log_id_from_timestamp(tag, mode_name,
    agent_name, network_name, timestamp)] is not part of the two files;
    it is only assumed to be a function of its five arguments. *)
Variable make_log_id_from_timestamp :
  string → string → string → string → string → string.

(** The path both branches of [main] compute. *)
Definition log_id_dir_of (args : Args) (timestamp : string) : string :=
  let log_id :=
    make_log_id_from_timestamp
      (tag args) (mode_name args) (agent args)
      (vision_network args +:+ network_body args) timestamp in
  os_path_join (log_dir args) [env_id args; log_id].

(** Returns the values of [timestamp] and [log_id_dir] at line 60; a
    local variable that was never bound is [None].  The helper is given
    strings; a timestamp that is not one (which rank 0 never sends) is
    taken to raise [TypeError]. *)
Definition main_run_identity (args : Args)
  : M Peer (PyObj * option string) :=
  let* rank := gets p_rank in
  let* bound :=
    (if decide (rank = 0) then
       let* timestamp := gets p_clock in
       let log_id_dir := log_id_dir_of args timestamp in
       os_makedirs log_id_dir;;
       print AsciiLogo;;
       ret (PyStr timestamp, Some log_id_dir)
     else ret (PyNone, None)) in
  let* timestamp := comm_bcast bound.1 0 in
  let* log_id_dir :=
    (if decide (rank ≠ 0) then
       match timestamp with
       | PyStr ts => ret (Some (log_id_dir_of args ts))
       | PyNone => raise TypeError
       end
     else ret bound.2) in
  comm_Barrier;;
  ret (timestamp, log_id_dir).

(** What [main] has established when the parameters are synchronised. *)
Record Started := mkStarted {
  s_timestamp : PyObj;
  s_log_id_dir : option string;
  s_p2pseed : Z;
  s_seed : Z;
  s_network : Network
}.

(** Lines 65-70 call three helpers of [adept.utils.script_helpers],
    which are not part of the two files, and [torch.manual_seed], which
    raises when the seed is outside the range the generator takes (a
    range that has changed between releases of torch).  Each of them may
    return, raise or not return, and is only assumed to be a function of
    its arguments and of the state of the process.  [env] stands for the
    attributes of the environment that lines 69-70 read. *)
Variable Env : Type.
Variable HeadShapes : Type.
Variable make_env : Args → Z → M Peer Env.
Variable torch_manual_seed : Z → M Peer unit.
Variable get_head_shapes : Env → string → M Peer HeadShapes.
Variable make_network : Env → HeadShapes → Args → M Peer Network.

(** Lines 65-70:
    [env = make_env(args, seed)
     torch.manual_seed(args.seed)
     network_head_shapes = get_head_shapes(env.action_space, env.engine,
                                           args.agent)
     network = make_network(env.observation_space, network_head_shapes,
                            args)] *)
Definition main_construct (args : Args) (env_seed : Z) : M Peer Network :=
  let* env := make_env args env_seed in
  torch_manual_seed (seed args);;
  let* network_head_shapes := get_head_shapes env (agent args) in
  make_network env network_head_shapes args.

(** [main(args)] up to line 84. *)
Definition main (args : Args) : M Peer Started :=
  let* identity := main_run_identity args in
  let* rank := gets p_rank in
  let shared := p2pseed args in
  let own := per_rank_seed args (Z.of_nat rank) in
  let* network := main_construct args own in
  main_sync_params network;;
  ret (mkStarted identity.1 identity.2 shared own network).

End RunIdentity.

(** ** A group of peers

    What each process starts from, and the group run: rank 0 first, then
    every other rank against what rank 0 contributed. *)

Record Local := mkLocal {
  l_args : Args;
  l_clock : string;
  l_fs : Fs;
  l_heap : Heap;
  l_net : Network
}.

Definition boot (rank : nat) (l : Local) (inbox : list Msg) : Peer :=
  mkPeer rank (l_heap l) (l_clock l) (l_fs l) [] inbox [] [] [].

Definition launch {A} (prog : Local → M Peer A) (group : list Local)
  : list (Peer * outcome A) :=
  match group with
  | [] => []
  | l0 :: ls =>
      let r0 := prog l0 (boot 0 l0 []) in
      r0 :: imap (λ i l, prog l (boot (S i) l (p_sent r0.1))) ls
  end.

(** The contents of the parameter buffers of a peer, by position. *)
Definition param_buffers (h : Heap) (net : Network) : list (list byte) :=
  map (λ l, t_data (h l)) (parameters net).

(** ** torch.distributed, as one peer sees it

    On a peer that is not in the group [dist.broadcast(t, src, grp,
    async_op)] returns [None] and does nothing.  On a member it rejects
    a source rank that is not in the group; otherwise it queues a
    broadcast of the tensor [t] and hands back a work object.  The
    broadcast is paired with those of the other members by the order of
    the calls on the group, and it completes when the rest of the group
    has made its part of it: [wait()] does not return before, at the
    source as little as elsewhere.  At the source the contents of the
    tensor at the time of the call go out.  At any other peer the
    contents sent are in the tensor, in place, when [wait()] returns;
    they may be there, in part or in whole, any time after the call. *)

(** A process group, by the ranks of its members. *)
Definition Group : Type := list nat.

Inductive PyVal := VNone | VBool (b : bool) | VWork (id : nat).

Record Payload := mkPayload {
  pl_count : nat;
  pl_dtype : Dtype;
  pl_data : list byte
}.

Record Work := mkWork {
  w_id : nat;
  w_tensor : loc;
  w_src : nat;
  w_group : Group;
  w_incoming : option Payload     (* the part of the rest of the group *)
}.

Record Issue := mkIssue {
  i_id : nat;
  i_tensor : loc;
  i_meta : Meta;
  i_src : nat;
  i_group : Group;
  i_async : bool
}.

(** [d_inbox] holds what the rest of the group brings to the coming
    broadcasts of the peer, in call order, as far as it ever joins them:
    at the source of a broadcast the receive buffer the others offer
    (its contents do not matter), elsewhere the message of the source. *)
Record Dist := mkDist {
  d_rank : nat;
  d_heap : Heap;
  d_inbox : list Payload;
  d_sent : list Payload;
  d_issued : list Issue;     (* broadcasts queued, in call order *)
  d_pending : list Work;     (* queued and not yet waited for *)
  d_waited : list nat;       (* work objects waited on, in call order *)
  d_next : nat               (* the next work object *)
}.

Definition dist_with_heap (f : Heap → Heap) (s : Dist) : Dist :=
  mkDist (d_rank s) (f (d_heap s)) (d_inbox s) (d_sent s) (d_issued s)
         (d_pending s) (d_waited s) (d_next s).
Definition dist_with_pending (f : list Work → list Work) (s : Dist)
  : Dist :=
  mkDist (d_rank s) (d_heap s) (d_inbox s) (d_sent s) (d_issued s)
         (f (d_pending s)) (d_waited s) (d_next s).
Definition dist_with_waited (f : list nat → list nat) (s : Dist) : Dist :=
  mkDist (d_rank s) (d_heap s) (d_inbox s) (d_sent s) (d_issued s)
         (d_pending s) (f (d_waited s)) (d_next s).

(** What the process-group backend leaves open.
    - [invalid_root]: the exception for a source rank that is not in the
      group (its class has changed between releases of torch).
    - [in_flight id x pl]: what the tensor [x] of a peer that is not the
      source holds after the call that queued the broadcast [id], when
      the message [pl] of the source is on its way: its old contents,
      those of [pl], or anything between.
    - [gives_up]: whether [wait()] ever ends when the rest of the group
      never joins the broadcast, and with which exception (a timeout);
      [None] when it blocks for ever.
    - [unfit at_source x pl]: what [wait()] leaves in the tensor [x],
      and how it ends, when the byte count of what the rest of the group
      brought is not that of [x]. *)
Record Backend := mkBackend {
  invalid_root : Exn;
  in_flight : nat → Tensor → Payload → list byte;
  gives_up : option Exn;
  unfit : bool → Tensor → Payload → list byte * outcome bool
}.

Variable c10d : Backend.

(** The message [pl] fills the tensor [x] exactly. *)
Definition fits (x : Tensor) (pl : Payload) : Prop :=
  pl_count pl * itemsize (pl_dtype pl) = nbytes (meta x).

Global Instance fits_dec x pl : Decision (fits x pl).
Proof. unfold fits. apply _. Defined.

(** Queueing one broadcast: a new work object with the part of the rest
    of the group in it, if there is one, and the call recorded; at the
    source the contents are sent, elsewhere the message of the source
    starts to arrive. *)
Definition queue_broadcast (t : loc) (src : nat) (grp : Group)
    (async_op : bool) (s : Dist) : Dist :=
  let id := d_next s in
  let x := d_heap s t in
  let issue := mkIssue id t (meta x) src grp async_op in
  let work := mkWork id t src grp (head (d_inbox s)) in
  if decide (d_rank s = src) then
    mkDist (d_rank s) (d_heap s) (tail (d_inbox s))
           (d_sent s ++ [mkPayload (numel (t_shape x)) (t_dtype x)
                                   (t_data x)])
           (d_issued s ++ [issue])
           (d_pending s ++ [work])
           (d_waited s) (S id)
  else
    mkDist (d_rank s)
           (match head (d_inbox s) with
            | Some pl => write_data (d_heap s) t (in_flight c10d id x pl)
            | None => d_heap s
            end)
           (tail (d_inbox s)) (d_sent s)
           (d_issued s ++ [issue])
           (d_pending s ++ [work])
           (d_waited s) (S id).

Fixpoint find_work (id : nat) (ws : list Work) : option Work :=
  match ws with
  | [] => None
  | w :: ws' => if decide (w_id w = id) then Some w else find_work id ws'
  end.

Definition drop_work (id : nat) (ws : list Work) : list Work :=
  filter (λ w, w_id w ≠ id) ws.

(** The broadcast of the work object [w] has completed: away from the
    source what was sent is in the tensor. *)
Definition complete (rank : nat) (w : Work) (pl : Payload)
  : M Dist unit :=
  (if decide (rank = w_src w) then ret tt
   else modify (dist_with_heap
                  (λ h, write_data h (w_tensor w) (pl_data pl))));;
  modify (dist_with_pending (drop_work (w_id w))).

(** [work.wait()] *)
Definition work_wait (id : nat) : M Dist bool :=
  modify (dist_with_waited (λ l, l ++ [id]));;
  let* rank := gets d_rank in
  let* pending := gets d_pending in
  match find_work id pending with
  | None => ret true                       (* already complete *)
  | Some w =>
      match w_incoming w with
      | None =>
          match gives_up c10d with
          | None => stall
          | Some e => raise e
          end
      | Some pl =>
          let* x := gets (λ s, d_heap s (w_tensor w)) in
          if decide (fits x pl) then complete rank w pl;; ret true
          else
            modify (dist_with_heap
                      (λ h, write_data h (w_tensor w)
                              (unfit c10d (bool_decide (rank = w_src w))
                                     x pl).1));;
            modify (dist_with_pending (drop_work id));;
            finish (unfit c10d (bool_decide (rank = w_src w)) x pl).2
      end
  end.

(** [dist.broadcast(t, src, grp, async_op)] *)
Definition dist_broadcast (t : loc) (src : nat) (grp : Group)
    (async_op : bool) : M Dist PyVal :=
  let* rank := gets d_rank in
  if decide (rank ∈ grp) then
    if decide (src ∈ grp) then
      let* id := gets d_next in
      modify (queue_broadcast t src grp async_op);;
      if async_op then ret (VWork id)
      else let* _ := work_wait id in ret VNone
    else raise (invalid_root c10d)
  else ret VNone.

(** [h.wait()] on whatever [h] is. *)
Definition py_wait (h : PyVal) : M Dist PyVal :=
  match h with
  | VWork id => let* b := work_wait id in ret (VBool b)
  | _ => raise AttributeError
  end.

(** ** [BaseNetwork.sync] ([base.py], lines 48-58)

    [async_op] is [None] when the caller leaves the argument out. *)
Definition sync (self : Network) (src : nat) (grp : Group)
    (async_op : option bool) : M Dist (list PyVal) :=
  let async_op := default false async_op in
  let* handles :=
    mapM (λ t, dist_broadcast t src grp true)
         (values (state_dict self)) in
  if negb async_op then mapM py_wait handles
  else ret handles.

(** ** The effect of the loops of [main] on the memory, in closed form *)

(** The array line 79 makes of the parameter [v]. *)
Definition as_array (h : Heap) (v : loc) : ndarray :=
  match t_device (h v) with
  | cpu => View v
  | cuda => Owned (mkTensor (t_shape (h v)) (t_dtype (h v)) cpu
                            (t_data (h v)))
  end.

(** What rank 0 contributes for a buffer. *)
Definition buf_msg (t : Tensor) : Msg :=
  MBuf (numel (t_shape t)) (t_dtype t) (t_data t).

Definition refill (a : ndarray) (d : list byte) : ndarray :=
  match a with
  | View l => View l
  | Owned t => Owned (set_data t d)
  end.

Definition view_write (h : Heap) (a : ndarray) (d : list byte) : Heap :=
  match a with
  | View l => write_data h l d
  | Owned _ => h
  end.

(** Lines 80-81: the received contents go into the arrays. *)
Definition fill_all (h : Heap) (ads : list (ndarray * list byte)) : Heap :=
  foldl (λ h ad, view_write h ad.1 ad.2) h ads.

(** Lines 82-83: the arrays are copied into the parameters. *)
Definition copy_all (h : Heap) (als : list (ndarray * loc)) : Heap :=
  foldl (λ h al, write_data h al.2 (t_data (array_value h al.1))) h als.

(** The memory of a peer of rank [r > 0] after lines 79-83, when the
    contents [ds] arrive for the parameters [ps]. *)
Definition synced_heap (h : Heap) (ps : list loc) (ds : list (list byte))
  : Heap :=
  let variables := map (as_array h) ps in
  copy_all (fill_all h (zip variables ds))
           (zip (zip_with refill variables ds) ps).

(** ** Sample data *)

Definition sample_args (e : Z) : Args :=
  mkArgs "run" "P2P" "ActorCritic" "FourConv" "LSTM" "/tmp/" "Pong" 42 e.

Definition sample_log_id (tag mode_name agent_name network_name
    timestamp : string) : string :=
  tag +:+ "_" +:+ mode_name +:+ "_" +:+ agent_name +:+ "_"
      +:+ network_name +:+ "_" +:+ timestamp.

(** A layer with a weight, a bias and one persistent statistic, and a
    head whose weight is tied to the layer's. *)
Definition sample_net : Network :=
  [ mkModule "" [] [];
    mkModule "norm" [("weight", 0); ("bias", 1)]
                    [("running_mean", true, 2); ("scratch", false, 3)];
    mkModule "head" [("weight", 0); ("scale", 4)] [] ].

Definition sample_tensor (dev : Device) (l : loc) (fillb : byte) : Tensor :=
  match l with
  | 0 => mkTensor [2; 1] uint8 dev [fillb; fillb]
  | 1 => mkTensor [1] float16 dev [fillb; x00]
  | 2 => mkTensor [2] uint8 dev [fillb; x01]
  | 4 => mkTensor [] float32 dev [fillb; x02; x03; x04]
  | _ => mkTensor [0] uint8 dev []
  end.

Definition sample_heap_root : Heap := λ l, sample_tensor cpu l x2a.
Definition sample_heap_host : Heap := λ l, sample_tensor cpu l x07.
Definition sample_heap_device : Heap := λ l, sample_tensor cuda l x09.

Definition sample_local (e : Z) (clock : string) (f : Fs) (h : Heap)
  : Local :=
  mkLocal (sample_args e) clock f h sample_net.

Definition sample_group (f : Fs) : list Local :=
  [ sample_local 4 "2018-11-03_10-00-00" f sample_heap_root;
    sample_local 4 "2018-11-03_10-00-07" f sample_heap_host;
    sample_local 4 "2018-11-03_09-59-58" f sample_heap_device ].

Definition fresh_fs : Fs := mkFs ["/tmp/"] true.
Definition stale_fs : Fs :=
  mkFs ["/tmp/Pong/run_P2P_ActorCritic_FourConvLSTM_2018-11-03_10-00-00";
        "/tmp/"] true.
Definition readonly_fs : Fs := mkFs ["/tmp/"] false.

Definition sample_dist (rank : nat) (h : Heap) (inbox : list Payload)
  : Dist :=
  mkDist rank h inbox [] [] [] [] 0.

Definition sample_grp : Group := [0; 1; 2].

(** An MPI library that, of a message that does not fit, copies what
    fits in the buffer; it returns if the message was shorter than the
    buffer and raises [MPI_ERR_TRUNCATE] if it was longer. *)
Definition sample_mpi_unfit (x : Tensor) (count : nat) (dt : Dtype)
    (d : list byte) : list byte * outcome unit :=
  (take (length (t_data x)) d ++ drop (length d) (t_data x),
   if decide (length d < length (t_data x)) then Ret tt
   else Raise MPI_ERR_TRUNCATE).

(** A backend that rejects a foreign root with [RuntimeError], delivers
    nothing before [wait()], gives up waiting with [RuntimeError], takes
    a message that is too short as it is and ends the process on one
    that is too long. *)
Definition sample_backend : Backend :=
  mkBackend RuntimeError
            (λ _ x _, t_data x)
            (Some RuntimeError)
            (λ _ x pl,
               if decide (length (pl_data pl) < length (t_data x))
               then (pl_data pl ++ drop (length (pl_data pl)) (t_data x),
                     Ret true)
               else (t_data x, Raise Killed)).

(** Helpers for the examples: an environment with nothing in it, a
    generator that takes the seeds of 64 bits, and the sample network. *)
Definition sample_make_env (args : Args) (seed : Z) : M Peer unit := ret tt.

Definition sample_manual_seed (seed : Z) : M Peer unit :=
  if decide (- 2 ^ 63 ≤ seed < 2 ^ 64)%Z then ret tt else raise RuntimeError.

Definition sample_head_shapes (env : unit) (agent : string) : M Peer unit :=
  ret tt.

Definition sample_make_network (env shapes : unit) (args : Args)
  : M Peer Network :=
  ret sample_net.

(** ** The effect of the loops of [sync], in closed form *)

(** The state after line 50-53: one broadcast queued per tensor. *)
Definition queue_all (src : nat) (grp : Group) (s : Dist) (ts : list loc)
  : Dist :=
  foldl (λ s t, queue_broadcast t src grp true s) s ts.

Fixpoint issues_from (h : Heap) (src : nat) (grp : Group) (id : nat)
    (ts : list loc) : list Issue :=
  match ts with
  | [] => []
  | t :: ts' =>
      mkIssue id t (meta (h t)) src grp true
      :: issues_from h src grp (S id) ts'
  end.

Fixpoint works_from (src : nat) (grp : Group) (id : nat)
    (incoming : list Payload) (ts : list loc) : list Work :=
  match ts with
  | [] => []
  | t :: ts' =>
      mkWork id t src grp (head incoming)
      :: works_from src grp (S id) (tail incoming) ts'
  end.

Definition payload_of (t : Tensor) : Payload :=
  mkPayload (numel (t_shape t)) (t_dtype t) (t_data t).

(** A queued broadcast that can complete: the part of the rest of the
    group is there and has the byte count of the tensor. *)
Definition ready (h : Heap) (w : Work) : Prop :=
  ∃ pl, w_incoming w = Some pl ∧ fits (h (w_tensor w)) pl.

(** The memory of a peer that is not the source once the broadcasts of
    the tensors [ts] are queued, numbered from [id]: what has come may
    have started to arrive. *)
Fixpoint arriving (h : Heap) (id : nat) (incoming : list Payload)
    (ts : list loc) {struct ts} : Heap :=
  match ts, incoming with
  | t :: ts', pl :: incoming' =>
      arriving (write_data h t (in_flight c10d id (h t) pl)) (S id)
               incoming' ts'
  | _, _ => h
  end.

(** What has come for the tensors [ts], position by position, has their
    byte counts. *)
Fixpoint fitting (h : Heap) (ts : list loc) (incoming : list Payload)
    {struct ts} : Prop :=
  match ts, incoming with
  | t :: ts', pl :: incoming' => fits (h t) pl ∧ fitting h ts' incoming'
  | _, _ => True
  end.

(** A call of [sync] as the protocol has it: the peer and the source are
    members of the group, and the rest of the group brings buffers of
    the byte counts of the peer's own, position by position. *)
Definition matched (net : Network) (src : nat) (grp : Group) (s : Dist)
  : Prop :=
  d_rank s ∈ grp ∧ src ∈ grp ∧
  fitting (d_heap s) (values (state_dict net)) (d_inbox s).

(** Work objects are numbered as they are made. *)
Definition dist_wf (s : Dist) : Prop :=
  Forall (λ w, w_id w < d_next s) (d_pending s).

(** What was queued and waited for between two states. *)
Definition issued_since (s s' : Dist) : list Issue :=
  drop (length (d_issued s)) (d_issued s').

Definition waited_since (s s' : Dist) : list nat :=
  drop (length (d_waited s)) (d_waited s').

(** ** What a computation leaves alone *)

(** [c] takes every state to one related to it by [R], however it ends. *)
Definition preserved {S A} (R : S → S → Prop) (c : M S A) : Prop :=
  ∀ s, R s (c s).1.

(** Every buffer keeps its shape and dtype. *)
Definition same_metas (h h' : Heap) : Prop :=
  ∀ l, meta (h' l) = meta (h l).

Definition peer_in_place (p p' : Peer) : Prop :=
  same_metas (p_heap p) (p_heap p').

Definition dist_in_place (s s' : Dist) : Prop :=
  same_metas (d_heap s) (d_heap s').

(** The record of what was queued is kept. *)
Definition same_issued (s s' : Dist) : Prop := d_issued s' = d_issued s.

(** So is what was sent. *)
Definition same_sent (s s' : Dist) : Prop := d_sent s' = d_sent s.




(** ** [main] after the synchronisation (lines 86-108)

    What [main] hands to its collaborators: the name and file of the
    logger, the directory of the summary writer, and the GPU of the
    peer.  The exceptions of this part are those of Python's integer
    and list operations. *)

Inductive PyErr := ZeroDivisionError | IndexError | NotImplementedError.

Inductive checked (A : Type) :=
  | Val (a : A)
  | Err (e : PyErr).
Arguments Val {A} a.
Arguments Err {A} e.

Global Instance PyErr_eq_dec : EqDecision PyErr.
Proof. solve_decision. Defined.

Global Instance checked_eq_dec {A} `{EqDecision A} : EqDecision (checked A).
Proof. solve_decision. Defined.

Definition and_then {A B} (c : checked A) (k : A → checked B) : checked B :=
  match c with
  | Val a => k a
  | Err e => Err e
  end.

(** [a % b] on non-negative integers. *)
Definition py_mod (a b : nat) : checked nat :=
  if decide (b = 0) then Err ZeroDivisionError else Val (a mod b).

(** [l[i]] for a non-negative index. *)
Definition py_getitem {A} (l : list A) (i : nat) : checked A :=
  match l !! i with
  | Some x => Val x
  | None => Err IndexError
  end.

(** [args.gpu_id]: an integer (the default, 0) or the list that
    [nargs='+'] collects. *)
Inductive GpuId := GpuInt (g : Z) | GpuList (gs : list Z).

(** Lines 104-107:
    [if isinstance(args.gpu_id, list):
         gpu_id = args.gpu_id[rank % len(args.gpu_id)]
     else:
         gpu_id = args.gpu_id] *)
Definition select_gpu (gpu_id : GpuId) (rank : nat) : checked Z :=
  match gpu_id with
  | GpuList gs =>
      and_then (py_mod rank (length gs)) (λ i, py_getitem gs i)
  | GpuInt g => Val g
  end.

(** ['P2PWorker{}'.format(rank)] *)
Definition logger_name (rank : nat) : string := "P2PWorker" +:+ pretty rank.

(** [os.path.join(log_id_dir, 'train_log_rank{}.txt'.format(rank))] *)
Definition train_log_path (log_id_dir : string) (rank : nat) : string :=
  os_path_join log_id_dir ["train_log_rank" +:+ pretty rank +:+ ".txt"].

(** [os.path.join(log_id_dir, 'rank{}'.format(rank))] *)
Definition summary_dir (log_id_dir : string) (rank : nat) : string :=
  os_path_join log_id_dir ["rank" +:+ pretty rank].

Record Wiring := mkWiring {
  w_logger : string;                 (* first argument of make_logger *)
  w_log_file : string;               (* second argument of make_logger *)
  w_summary : string;                (* argument of SummaryWriter *)
  w_cuda_visible_devices : string    (* os.environ['CUDA_VISIBLE_DEVICES'] *)
}.

(** Lines 86-108, for the peer of rank [rank]. *)
Definition main_wiring (gpu_id : GpuId) (log_id_dir : string) (rank : nat)
  : checked Wiring :=
  let logger := logger_name rank in
  let log_file := train_log_path log_id_dir rank in
  let summary := summary_dir log_id_dir rank in
  and_then (select_gpu gpu_id rank)
           (λ g, Val (mkWiring logger log_file summary (pretty g))).

(** The ranks below [n] that [select_gpu] sends to the GPU [g]. *)
Definition peers_on_gpu (gpu_id : GpuId) (n : nat) (g : Z) : list nat :=
  filter (λ r, select_gpu gpu_id r = Val g) (seq 0 n).

(** ** The script entry ([p2p.py], lines 171-178) *)

(** The parsed command line: the arguments [main] reads, with the
    options this script adds that the lines modelled here read. *)
Record Namespace := mkNamespace {
  ns_args : Args;
  ns_gpu_id : GpuId;
  ns_debug : bool
}.

Definition set_nb_env (e : Z) (a : Args) : Args :=
  mkArgs (tag a) (mode_name a) (agent a) (vision_network a)
         (network_body a) (log_dir a) (env_id a) (seed a) e.

Definition set_log_dir (d : string) (a : Args) : Args :=
  mkArgs (tag a) (mode_name a) (agent a) (vision_network a)
         (network_body a) d (env_id a) (seed a) (nb_env a).

Definition set_mode_name (m : string) (a : Args) : Args :=
  mkArgs (tag a) m (agent a) (vision_network a)
         (network_body a) (log_dir a) (env_id a) (seed a) (nb_env a).

(** Lines 173-176:
    [if args.debug:
         args.nb_env = 3
         args.log_dir = '/tmp/'
     args.mode_name = 'P2P'] *)
Definition entry_args (ns : Namespace) : Args :=
  let args := ns_args ns in
  let args :=
    if ns_debug ns then set_log_dir "/tmp/" (set_nb_env 3 args) else args in
  set_mode_name "P2P" args.

(** ** [BaseNetwork.internal_space] ([base.py], lines 45-46) *)

(** [BaseNetwork.new_internals] as the base class has it. *)
Definition abstract_new_internals (device : Device)
  : checked (list (string * Tensor)) :=
  Err NotImplementedError.

(** [{k: t.shape for k, t in self.new_internals('cpu').items()}], the
    dictionaries with their entries in insertion order. *)
Definition internal_space
    (new_internals : Device → checked (list (string * Tensor)))
  : checked (list (string * list nat)) :=
  and_then (new_internals cpu)
           (λ d, Val (foldl (λ acc (kt : string * Tensor),
                               od_set acc kt.1 (t_shape kt.2))
                            [] d)).

(** ** A group of peers under torch.distributed

    One call of [sync] on every peer of a group: the source of the
    broadcasts first, then each other peer against what the source has
    sent in that call. *)
Definition sent_since (s s' : Dist) : list Payload :=
  drop (length (d_sent s)) (d_sent s').

Definition with_contributions (inbox : list Payload) (s : Dist) : Dist :=
  mkDist (d_rank s) (d_heap s) inbox (d_sent s) (d_issued s) (d_pending s)
         (d_waited s) (d_next s).

Definition group_sync (net_of : Dist → Network) (grp : Group)
    (async_op : option bool) (source : Dist) (others : list Dist)
  : (Dist * outcome (list PyVal)) * list (Dist * outcome (list PyVal)) :=
  let src := d_rank source in
  let r0 := sync (net_of source) src grp async_op source in
  (r0,
   map (λ s, sync (net_of s) src grp async_op
                  (with_contributions (sent_since source r0.1) s))
       others).

(** ** More closed forms *)

(** The bytes a buffer occupies. *)
Definition size_of (t : Tensor) : nat := nbytes (meta t).

(** A sequence of in-place writes. *)
Definition write_all (h : Heap) (lds : list (loc * list byte)) : Heap :=
  foldl (λ h ld, write_data h ld.1 ld.2) h lds.

(** The memory once the queued broadcasts [ws] have completed at the
    peer of rank [rank]: what arrived for each is in its tensor. *)
Definition landed (h : Heap) (rank : nat) (ws : list Work) : Heap :=
  foldl (λ h w,
           if decide (rank = w_src w) then h
           else match w_incoming w with
                | Some pl => write_data h (w_tensor w) (pl_data pl)
                | None => h
                end)
        h ws.

(** Two networks whose state dictionaries pair up by position though
    their modules and names differ. *)
Definition untied_net : Network :=
  [ mkModule "norm" [("bias", 1)] [("running_mean", true, 2)];
    mkModule "head" [("scale", 4)] [] ].

Definition flat_net : Network :=
  [ mkModule "a" [("x", 1); ("y", 2); ("z", 4)] [] ].

Definition sample_net_of (s : Dist) : Network :=
  if decide (d_rank s = 1) then untied_net else flat_net.

(** * Results *)

(** ** Seed distribution *)

Lemma per_rank_seed_root (args : Args) : per_rank_seed args 0 = seed args.
Proof. reflexivity. Qed.

Lemma per_rank_seed_other (args : Args) (r : Z) :
  r ≠ 0%Z → per_rank_seed args r = (seed args + nb_env args * (r - 1))%Z.
Proof.
  intros Hr. unfold per_rank_seed.
  destruct (Z.eqb_spec r 0) as [->|_]; [contradiction|reflexivity].
Qed.

(** C2. The seed of a peer depends on [args.seed], [args.nb_env] and the
    rank only: rank 0 gets [args.seed], and every rank [r > 0] gets
    [args.seed + args.nb_env * (r - 1)]. *)
Theorem per_rank_seed_spec (args : Args) (r : Z) (Hr : (r > 0)%Z) :
  per_rank_seed args 0 = seed args ∧
  per_rank_seed args r = (seed args + nb_env args * (r - 1))%Z ∧
  (∀ args' k, seed args' = seed args → nb_env args' = nb_env args →
     per_rank_seed args' k = per_rank_seed args k).
Proof.
  split; [apply per_rank_seed_root|split].
  - apply per_rank_seed_other. lia.
  - intros args' k Hs He. unfold per_rank_seed. by rewrite Hs, He.
Qed.

Lemma per_rank_seed_spec_witness :
  (2 > 0)%Z ∧ per_rank_seed (sample_args 4) 2 = 46%Z.
Proof.
  split; [lia|].
  rewrite (proj1 (proj2 (per_rank_seed_spec (sample_args 4) 2 ltac:(lia)))).
  reflexivity.
Defined.

(** C3. With three peers and [args.seed = 42] the seeds by rank are
    [42], [42], [42 + nb_env]: rank 1 is given the seed of rank 0, for
    every [args], although line 64 announces a unique seed per
    process. *)
Theorem scenario_A_seeds (e : Z) :
  seed_assignment (sample_args e) 3 = [42; 42; 42 + e]%Z ∧
  seed_assignment (sample_args 4) 3 ≠ [42; 42 + 4; 42 + 2 * 4]%Z ∧
  (∀ args, per_rank_seed args 1 = per_rank_seed args 0).
Proof.
  split; [|split].
  - unfold seed_assignment, per_rank_seed. simpl. repeat f_equal; lia.
  - discriminate.
  - intros args. unfold per_rank_seed. simpl. lia.
Qed.

(** C4, as stated, does not hold: with [args.nb_env = 0] ranks 1 and 2
    of a group of three get the same seed. *)
Lemma seeds_distinct_needs_envs :
  ¬ (∀ (args : Args) (n i j : nat),
       2 ≤ n → 0 < i < n → 0 < j < n → i ≠ j →
       per_rank_seed args (Z.of_nat i) ≠ per_rank_seed args (Z.of_nat j)).
Proof.
  intros H. apply (H (sample_args 0) 3 1 2); [lia..|reflexivity].
Qed.

(** C4, amended. When [args.nb_env] is not zero, in a group of [n >= 2]
    peers any two distinct ranks other than 0 get distinct seeds, and
    rank 0 gets [args.seed]. *)
Theorem seeds_distinct (args : Args) (n i j : nat) :
  nb_env args ≠ 0%Z → 2 ≤ n → 0 < i < n → 0 < j < n → i ≠ j →
  per_rank_seed args (Z.of_nat i) ≠ per_rank_seed args (Z.of_nat j) ∧
  per_rank_seed args 0 = seed args.
Proof.
  intros He _ Hi Hj Hij. split; [|reflexivity].
  rewrite !per_rank_seed_other by lia. intros Heq.
  assert (nb_env args * (Z.of_nat i - Z.of_nat j) = 0)%Z as H0 by lia.
  apply Z.mul_eq_0 in H0. lia.
Qed.

Lemma seeds_distinct_witness :
  nb_env (sample_args 4) ≠ 0%Z ∧ 2 ≤ 3 ∧ 0 < 1 < 3 ∧ 0 < 2 < 3 ∧ 1 ≠ 2 ∧
  per_rank_seed (sample_args 4) 1 ≠ per_rank_seed (sample_args 4) 2.
Proof.
  assert (nb_env (sample_args 4) ≠ 0%Z) as He by discriminate.
  repeat (split; [first [exact He | lia]|]).
  exact (proj1 (seeds_distinct (sample_args 4) 3 1 2 He
                  ltac:(lia) ltac:(lia) ltac:(lia) ltac:(lia))).
Defined.

(** ** The memory of a peer *)

Lemma meta_set_data t d : meta (set_data t d) = meta t.
Proof. reflexivity. Qed.

Lemma write_data_eq h l d : write_data h l d l = set_data (h l) d.
Proof. unfold write_data. by rewrite decide_True. Qed.

Lemma write_data_ne h l d l' : l' ≠ l → write_data h l d l' = h l'.
Proof. intros. unfold write_data. by rewrite decide_False. Qed.

Lemma meta_write_data h l d l' : meta (write_data h l d l') = meta (h l').
Proof. unfold write_data. by destruct (decide (l' = l)) as [->|]. Qed.

Lemma meta_array_value_write h l d a :
  meta (array_value (write_data h l d) a) = meta (array_value h a).
Proof. destruct a; simpl; [apply meta_write_data|done]. Qed.

Lemma meta_view_write h a d l : meta (view_write h a d l) = meta (h l).
Proof. destruct a; simpl; [apply meta_write_data|done]. Qed.

Lemma meta_array_value_view_write h a d a' :
  meta (array_value (view_write h a d) a') = meta (array_value h a').
Proof. destruct a; simpl; [apply meta_array_value_write|done]. Qed.

Lemma meta_fill_all ads h l : meta (fill_all h ads l) = meta (h l).
Proof.
  revert h. induction ads as [|[a d] ads IH]; intros h; [done|].
  simpl. rewrite IH. apply meta_view_write.
Qed.

Lemma meta_copy_all als h l : meta (copy_all h als l) = meta (h l).
Proof.
  revert h. induction als as [|[a v] als IH]; intros h; [done|].
  simpl. rewrite IH. apply meta_write_data.
Qed.

Lemma meta_as_array h v : meta (array_value h (as_array h v)) = meta (h v).
Proof. unfold as_array. by destruct (t_device (h v)). Qed.

Lemma data_as_array h v :
  t_data (array_value h (as_array h v)) = t_data (h v).
Proof. unfold as_array. by destruct (t_device (h v)). Qed.

Lemma buf_msg_as_array h v :
  buf_msg (array_value h (as_array h v)) = buf_msg (h v).
Proof. unfold as_array. by destruct (t_device (h v)). Qed.

(** ** The loops of [main_sync_params], run *)

Lemma detach_cpu_numpy_run v p :
  detach_cpu_numpy v p = (p, Ret (as_array (p_heap p) v)).
Proof.
  unfold detach_cpu_numpy, as_array, bind, gets, ret.
  by destruct (t_device (p_heap p v)).
Qed.

Lemma mapM_detach ps p :
  mapM detach_cpu_numpy ps p = (p, Ret (map (as_array (p_heap p)) ps)).
Proof.
  induction ps as [|v ps IH]; [done|].
  simpl. unfold bind at 1. rewrite detach_cpu_numpy_run.
  unfold bind at 1. by rewrite IH.
Qed.

Lemma root_bcast_all ps h ck f md ib snt tr out :
  forM_ (λ v, let* a := detach_cpu_numpy v in
              let* _ := comm_Bcast a 0 in ret tt) ps
        (mkPeer 0 h ck f md ib snt tr out)
  = (mkPeer 0 h ck f md ib
            (snt ++ map (λ v, buf_msg (h v)) ps)
            (tr ++ map (λ v, EvBcastBuf (meta (h v)) 0) ps) out,
     Ret tt).
Proof.
  revert snt tr. induction ps as [|v ps IH]; intros snt tr.
  - simpl. by rewrite !app_nil_r.
  - simpl. unfold bind at 1. unfold bind at 1.
    rewrite detach_cpu_numpy_run. simpl.
    unfold comm_Bcast, bind, gets, called, send, modify, ret. simpl.
    fold (@bind Peer). 
    rewrite meta_as_array.
    specialize (IH (snt ++ [buf_msg (h v)]) (tr ++ [EvBcastBuf (meta (h v)) 0])).
    rewrite <- !app_assoc in IH. simpl in IH. rewrite <- IH.
    rewrite <- (buf_msg_as_array h v). reflexivity.
Qed.

Lemma fill_run a d rk h ck f md ib snt tr out :
  fill a d (mkPeer rk h ck f md ib snt tr out)
  = (mkPeer rk (view_write h a d) ck f md ib snt tr out, Ret (refill a d)).
Proof. by destruct a. Qed.

Lemma recv_all vs ts rk h ck f md rest snt tr out :
  rk ≠ 0 →
  Forall2 (λ v t, meta (array_value h v) = meta t) vs ts →
  mapM (λ v, comm_Bcast v 0) vs
       (mkPeer rk h ck f md (map buf_msg ts ++ rest) snt tr out)
  = (mkPeer rk (fill_all h (zip vs (map t_data ts))) ck f md rest snt
            (tr ++ map (λ v, EvBcastBuf (meta (array_value h v)) 0) vs)
            out,
     Ret (zip_with refill vs (map t_data ts))).
Proof.
  intros Hrk. revert ts h tr.
  induction vs as [|v vs IH]; intros ts h tr Hfit.
  - apply Forall2_nil_inv_l in Hfit as ->. simpl. by rewrite app_nil_r.
  - apply Forall2_cons_inv_l in Hfit as (t & ts' & Hvt & Hfit & ->).
    rename ts' into ts. simpl. unfold bind at 1.
    assert (comm_Bcast v 0
              (mkPeer rk h ck f md (buf_msg t :: map buf_msg ts ++ rest)
                      snt tr out)
            = (mkPeer rk (view_write h v (t_data t)) ck f md
                      (map buf_msg ts ++ rest) snt
                      (tr ++ [EvBcastBuf (meta (array_value h v)) 0]) out,
               Ret (refill v (t_data t)))) as ->.
    { unfold comm_Bcast, bind, gets, called, modify, recv. simpl.
      rewrite decide_False by done. simpl.
      rewrite decide_True; [apply fill_run|].
      rewrite Hvt. reflexivity. }
    unfold bind at 1. rewrite IH.
    + simpl. rewrite <- app_assoc. simpl.
      rewrite (map_ext
                 (λ a, EvBcastBuf
                         (meta (array_value (view_write h v (t_data t)) a))
                         0)
                 (λ a, EvBcastBuf (meta (array_value h a)) 0)); [done|].
      intros a. by rewrite meta_array_value_view_write.
    + eapply Forall2_impl; [exact Hfit|]. intros a t' Ha.
      by rewrite meta_array_value_view_write.
Qed.

Lemma copy_all_run als rk h ck f md ib snt tr out :
  Forall (λ al : ndarray * loc, meta (array_value h al.1) = meta (h al.2))
         als →
  forM_ (λ sm : ndarray * loc, copy_ sm.2 sm.1) als
        (mkPeer rk h ck f md ib snt tr out)
  = (mkPeer rk (copy_all h als) ck f md ib snt tr out, Ret tt).
Proof.
  intros Hok. revert h Hok.
  induction als as [|[a l] als IH]; intros h Hok; [done|].
  apply Forall_cons in Hok as [Ha Hok]. simpl in Ha.
  simpl. unfold bind at 1. unfold copy_, bind, gets, modify. simpl.
  rewrite decide_True by done. simpl.
  apply IH. eapply Forall_impl; [exact Hok|]. intros [a' l'] H'. simpl in *.
  by rewrite meta_array_value_write, meta_write_data.
Qed.

(** The two lists the loops of lines 80-83 run over, by parameter. *)
Lemma zip_arrays h0 ps ds :
  zip (map (as_array h0) ps) ds
  = map (λ ld : loc * list byte, (as_array h0 ld.1, ld.2)) (zip ps ds).
Proof.
  revert ds. induction ps as [|l ps IH]; intros [|d ds]; simpl; try done.
  by rewrite IH.
Qed.

Lemma zip_refilled h0 ps ds :
  zip (zip_with refill (map (as_array h0) ps) ds) ps
  = map (λ ld : loc * list byte, (refill (as_array h0 ld.1) ld.2, ld.1))
        (zip ps ds).
Proof.
  revert ds. induction ps as [|l ps IH]; intros [|d ds]; simpl; try done.
  by rewrite IH.
Qed.

Lemma refilled_fit h0 h1 ps ds :
  (∀ l, meta (h1 l) = meta (h0 l)) →
  Forall (λ al : ndarray * loc, meta (array_value h1 al.1) = meta (h1 al.2))
         (zip (zip_with refill (map (as_array h0) ps) ds) ps).
Proof.
  intros Hm. rewrite zip_refilled. apply Forall_fmap, Forall_forall.
  intros [l d] _. simpl. unfold as_array.
  destruct (t_device (h0 l)); simpl; [done|]. by rewrite Hm.
Qed.

Lemma main_sync_params_root net h ck f md ib snt tr out :
  main_sync_params net (mkPeer 0 h ck f md ib snt tr out)
  = (mkPeer 0 h ck f md ib
            (snt ++ map (λ v, buf_msg (h v)) (parameters net))
            (tr ++ map (λ v, EvBcastBuf (meta (h v)) 0) (parameters net))
            (out ++ [Line "0 variables synced"]),
     Ret tt).
Proof.
  unfold main_sync_params. unfold bind at 1. simpl.
  unfold bind at 1. by rewrite root_bcast_all.
Qed.

Lemma main_sync_params_other net ts rk h ck f md rest snt tr out :
  rk ≠ 0 →
  map (λ l, meta (h l)) (parameters net) = map meta ts →
  main_sync_params net
    (mkPeer rk h ck f md (map buf_msg ts ++ rest) snt tr out)
  = (mkPeer rk (synced_heap h (parameters net) (map t_data ts))
            ck f md rest snt
            (tr ++ map (λ v, EvBcastBuf (meta (h v)) 0) (parameters net))
            (out ++ [Line (pretty rk +:+ " variables synced")]),
     Ret tt).
Proof.
  intros Hrk Htop. unfold main_sync_params. unfold bind at 1. simpl.
  rewrite decide_False by done.
  unfold bind at 1. rewrite mapM_detach. simpl.
  unfold bind at 1. rewrite recv_all; [|done|].
  - unfold bind at 1. rewrite copy_all_run.
    + unfold print, modify. simpl. unfold synced_heap, with_stdout. simpl.
      rewrite map_map.
      rewrite (map_ext
                 (λ l, EvBcastBuf (meta (array_value h (as_array h l))) 0)
                 (λ l, EvBcastBuf (meta (h l)) 0)); [done|].
      intros l. by rewrite meta_as_array.
    + apply refilled_fit. intros l. apply meta_fill_all.
  - revert Htop. generalize (parameters net). intros ps. revert ts.
    induction ps as [|l ps IH]; intros [|t ts] Heq; try discriminate.
    + constructor.
    + simpl in Heq. apply (f_equal head) in Heq as Hhd.
      apply (f_equal tail) in Heq as Htl. simpl in *.
      constructor; [rewrite meta_as_array; congruence|by apply IH].
Qed.

(** ** The memory after the loops *)

Lemma view_write_other h a d l :
  a ≠ View l → view_write h a d l = h l.
Proof.
  destruct a as [l'|t]; simpl; [|done].
  intros Hne. apply write_data_ne. congruence.
Qed.

Lemma as_array_view h0 l l' : as_array h0 l = View l' → l' = l.
Proof. unfold as_array. destruct (t_device (h0 l)); congruence. Qed.

Lemma fill_all_frame h0 lds h l :
  l ∉ map fst lds →
  fill_all h (map (λ ld : loc * list byte, (as_array h0 ld.1, ld.2)) lds) l
  = h l.
Proof.
  revert h. induction lds as [|[l0 d0] lds IH]; intros h Hl; [done|].
  simpl in *. apply not_elem_of_cons in Hl as [Hne Hl].
  rewrite IH by done. apply view_write_other.
  intros Hv. apply as_array_view in Hv. done.
Qed.

Lemma fill_all_at h0 lds h l d :
  NoDup (map fst lds) → (l, d) ∈ lds →
  fill_all h (map (λ ld : loc * list byte, (as_array h0 ld.1, ld.2)) lds) l
  = view_write h (as_array h0 l) d l.
Proof.
  revert h. induction lds as [|[l0 d0] lds IH]; intros h Hnd Hin.
  - by apply elem_of_nil in Hin.
  - simpl in *. apply NoDup_cons in Hnd as [Hl0 Hnd].
    apply elem_of_cons in Hin as [Heq|Hin].
    + simplify_eq. by apply fill_all_frame.
    + rewrite IH by done.
      assert (l ≠ l0) as Hne.
      { intros ->. apply Hl0. apply list_elem_of_fmap. by exists (l0, d). }
      assert (view_write h (as_array h0 l0) d0 l = h l) as Hsame.
      { apply view_write_other. intros Hv. apply as_array_view in Hv. done. }
      destruct (as_array h0 l) as [l'|t]; simpl; [|done].
      unfold write_data. destruct (decide (l = l')) as [<-|]; [|done].
      by rewrite Hsame.
Qed.

Lemma copy_all_frame als h l :
  l ∉ map snd als → copy_all h als l = h l.
Proof.
  revert h. induction als as [|[a l0] als IH]; intros h Hl; [done|].
  simpl in *. apply not_elem_of_cons in Hl as [Hne Hl].
  rewrite IH by done. by apply write_data_ne.
Qed.

Lemma copy_all_at als h a l :
  NoDup (map snd als) →
  Forall (λ al : ndarray * loc, ∀ l', al.1 = View l' → l' = al.2) als →
  (a, l) ∈ als →
  copy_all h als l = set_data (h l) (t_data (array_value h a)).
Proof.
  revert h. induction als as [|[a0 l0] als IH]; intros h Hnd Hown Hin.
  - by apply elem_of_nil in Hin.
  - simpl in *. apply NoDup_cons in Hnd as [Hl0 Hnd].
    apply Forall_cons in Hown as [Ha0 Hown].
    apply elem_of_cons in Hin as [Heq|Hin].
    + simplify_eq. rewrite copy_all_frame by done. apply write_data_eq.
    + rewrite IH by done.
      assert (l ≠ l0) as Hne.
      { intros ->. apply Hl0. apply list_elem_of_fmap. by exists (a, l0). }
      rewrite write_data_ne by done. f_equal. f_equal.
      destruct a as [l'|t]; simpl; [|done].
      apply write_data_ne.
      rewrite Forall_forall in Hown. specialize (Hown _ Hin l' eq_refl).
      simpl in Hown. congruence.
Qed.

Lemma synced_heap_frame h ps ds l :
  l ∉ ps → synced_heap h ps ds l = h l.
Proof.
  intros Hl. unfold synced_heap. rewrite zip_refilled, zip_arrays.
  assert (∀ {A} (g : loc * list byte → A), l ∉ map fst (zip ps ds)) as Hz.
  { intros _ _ Hin. apply Hl. apply list_elem_of_fmap in Hin as ([l' d] & -> & Hin).
    by apply elem_of_zip_l in Hin. }
  rewrite copy_all_frame.
  - apply fill_all_frame. by apply (Hz unit (λ _, tt)).
  - rewrite map_map. simpl. by apply (Hz unit (λ _, tt)).
Qed.

Lemma zip_fst_NoDup {A B} (ps : list A) (ds : list B) :
  NoDup ps → NoDup (map fst (zip ps ds)).
Proof.
  intros Hnd. apply (sublist_NoDup _ ps Hnd).
  clear. revert ds. induction ps as [|p ps IH]; intros [|d ds]; simpl;
    try constructor; try apply sublist_nil_l. apply IH.
Qed.

Lemma synced_heap_at h ps ds l d :
  NoDup ps → (l, d) ∈ zip ps ds →
  synced_heap h ps ds l = set_data (h l) d.
Proof.
  intros Hnd Hin. unfold synced_heap. rewrite zip_refilled, zip_arrays.
  pose proof (zip_fst_NoDup ps ds Hnd) as Hnd'.
  rewrite (copy_all_at _ _ (refill (as_array h l) d) l).
  - rewrite (fill_all_at h (zip ps ds) h l d Hnd' Hin).
    destruct (as_array h l) as [l'|t] eqn:E; simpl; [|done].
    apply as_array_view in E as Heq. subst l'.
    rewrite (fill_all_at h (zip ps ds) h l d Hnd' Hin), E. simpl.
    by rewrite !write_data_eq.
  - by rewrite map_map.
  - apply Forall_fmap, Forall_forall. intros [l0 d0] _ l'. simpl.
    destruct (as_array h l0) as [l1|t] eqn:E; simpl; [|done].
    intros [= <-]. by apply as_array_view in E.
  - apply list_elem_of_fmap. by exists (l, d).
Qed.

Lemma map_by_zip {A B} (g : A → B) (ps : list A) (ds : list B) :
  length ds = length ps →
  (∀ l d, (l, d) ∈ zip ps ds → g l = d) →
  map g ps = ds.
Proof.
  revert ds. induction ps as [|p ps IH]; intros [|d ds] Hlen Hat;
    try discriminate; [done|].
  simpl in *. f_equal.
  - apply Hat. apply list_elem_of_here.
  - apply IH; [lia|]. intros l d' Hin. apply Hat. by apply list_elem_of_further.
Qed.

Lemma synced_heap_buffers h ps ds :
  NoDup ps → length ds = length ps →
  map (λ l, t_data (synced_heap h ps ds l)) ps = ds.
Proof.
  intros Hnd Hlen. apply map_by_zip; [done|].
  intros l d Hin. by rewrite (synced_heap_at h ps ds l d).
Qed.

Lemma meta_synced_heap h ps ds l :
  meta (synced_heap h ps ds l) = meta (h l).
Proof. unfold synced_heap. by rewrite meta_copy_all, meta_fill_all. Qed.

(** ** Enumeration of the parameters *)

Lemma named_members_NoDup memo l :
  NoDup (map snd (named_members memo l)) ∧
  ∀ v, v ∈ map snd (named_members memo l) → v ∉ memo.
Proof.
  revert memo. induction l as [|[k v] l IH]; intros memo; simpl.
  - split; [constructor|]. intros v Hv. by apply elem_of_nil in Hv.
  - destruct (decide (v ∈ memo)) as [Hin|Hout]; [apply IH|].
    destruct (IH (v :: memo)) as [Hnd Hfresh]. simpl. split.
    + constructor; [|done]. intros Hv. apply Hfresh in Hv.
      apply Hv, list_elem_of_here.
    + intros v' [->|Hv']%elem_of_cons; [done|].
      apply Hfresh in Hv'. intros Hm. apply Hv'. by apply list_elem_of_further.
Qed.

Lemma parameters_NoDup net : NoDup (parameters net).
Proof. apply named_members_NoDup. Qed.

(** ** The initial synchronisation of a group *)

Lemma launch_length {A} (prog : Local → M Peer A) (group : list Local) :
  length (launch prog group) = length group.
Proof. destruct group; simpl; [done|]. by rewrite length_imap. Qed.

Lemma launch_lookup_root {A} (prog : Local → M Peer A) l0 ls :
  launch prog (l0 :: ls) !! 0 = Some (prog l0 (boot 0 l0 [])).
Proof. reflexivity. Qed.

Lemma launch_lookup_other {A} (prog : Local → M Peer A) l0 ls i l :
  ls !! i = Some l →
  launch prog (l0 :: ls) !! S i
  = Some (prog l (boot (S i) l (p_sent (prog l0 (boot 0 l0 [])).1))).
Proof. intros Hl. simpl. by rewrite list_lookup_imap, Hl. Qed.

Lemma sync_root_result l0 :
  main_sync_params (l_net l0) (boot 0 l0 [])
  = (mkPeer 0 (l_heap l0) (l_clock l0) (l_fs l0) [] []
            (map buf_msg (map (l_heap l0) (parameters (l_net l0))))
            (map (λ m, EvBcastBuf m 0)
                 (param_topology (l_heap l0) (l_net l0)))
            [Line "0 variables synced"],
     Ret tt).
Proof.
  unfold boot. rewrite main_sync_params_root. simpl.
  unfold param_topology. by rewrite !map_map.
Qed.

Lemma sync_other_result l0 l i :
  param_topology (l_heap l) (l_net l)
  = param_topology (l_heap l0) (l_net l0) →
  main_sync_params (l_net l)
    (boot (S i) l (p_sent (main_sync_params (l_net l0) (boot 0 l0 [])).1))
  = (mkPeer (S i)
            (synced_heap (l_heap l) (parameters (l_net l))
                         (param_buffers (l_heap l0) (l_net l0)))
            (l_clock l) (l_fs l) [] [] []
            (map (λ m, EvBcastBuf m 0)
                 (param_topology (l_heap l0) (l_net l0)))
            [Line (pretty (S i) +:+ " variables synced")],
     Ret tt).
Proof.
  intros Htop. rewrite sync_root_result. unfold boot. simpl.
  rewrite <- (app_nil_r (map buf_msg _)).
  rewrite main_sync_params_other; [|done|].
  - simpl. unfold param_buffers. rewrite map_map.
    rewrite <- Htop. unfold param_topology. by rewrite map_map.
  - unfold param_topology in Htop. by rewrite Htop, map_map.
Qed.

(** C1. In a group of any size whose peers built networks of the same
    parameter topology, the initial synchronisation returns on every
    peer, and afterwards the parameter buffers of every peer equal, position
    by position, those rank 0 had when it broadcast them (shape and
    dtype included). *)
Theorem initial_sync_converges (l0 : Local) (ls : list Local)
    (r : nat) (l : Local) :
  (∀ l', l' ∈ ls →
     param_topology (l_heap l') (l_net l')
     = param_topology (l_heap l0) (l_net l0)) →
  (l0 :: ls) !! r = Some l →
  ∃ p, launch (λ l, main_sync_params (l_net l)) (l0 :: ls) !! r
       = Some (p, Ret tt) ∧
       param_buffers (p_heap p) (l_net l)
       = param_buffers (l_heap l0) (l_net l0) ∧
       param_topology (p_heap p) (l_net l)
       = param_topology (l_heap l0) (l_net l0).
Proof.
  intros Htop Hl. destruct r as [|i].
  - injection Hl as <-. eexists. rewrite launch_lookup_root.
    rewrite sync_root_result. by repeat split.
  - simpl in Hl. assert (l ∈ ls) as Hin by by eapply list_elem_of_lookup_2.
    specialize (Htop l Hin). eexists.
    rewrite (launch_lookup_other _ l0 ls i l Hl).
    rewrite (sync_other_result l0 l i Htop). simpl. repeat split.
    + unfold param_buffers at 1. apply synced_heap_buffers.
      * apply parameters_NoDup.
      * unfold param_buffers. rewrite !length_map.
        apply (f_equal length) in Htop. unfold param_topology in Htop.
        by rewrite !length_map in Htop.
    + rewrite <- Htop. unfold param_topology. apply map_ext.
      intros v. apply meta_synced_heap.
Qed.

(** ** The loops of [sync], run *)

Lemma d_next_queue_broadcast t src grp a s :
  d_next (queue_broadcast t src grp a s) = S (d_next s).
Proof. unfold queue_broadcast. by destruct (decide (d_rank s = src)). Qed.

Lemma d_rank_queue_broadcast t src grp a s :
  d_rank (queue_broadcast t src grp a s) = d_rank s.
Proof. unfold queue_broadcast. by destruct (decide (d_rank s = src)). Qed.

Lemma dist_broadcast_async t src grp s :
  d_rank s ∈ grp → src ∈ grp →
  dist_broadcast t src grp true s
  = (queue_broadcast t src grp true s, Ret (VWork (d_next s))).
Proof.
  intros Hrk Hsrc. unfold dist_broadcast, bind, gets. simpl.
  by rewrite !decide_True by done.
Qed.

Lemma dist_broadcast_outside t src grp a s :
  d_rank s ∉ grp → dist_broadcast t src grp a s = (s, Ret VNone).
Proof.
  intros Hrk. unfold dist_broadcast, bind, gets. simpl.
  by rewrite decide_False by done.
Qed.

Lemma dist_broadcast_invalid_root t src grp a s :
  d_rank s ∈ grp → src ∉ grp →
  dist_broadcast t src grp a s = (s, Raise (invalid_root c10d)).
Proof.
  intros Hrk Hsrc. unfold dist_broadcast, bind, gets. simpl.
  rewrite decide_True by done. by rewrite decide_False by done.
Qed.

Lemma queue_loop ts src grp s :
  d_rank s ∈ grp → src ∈ grp →
  mapM (λ t, dist_broadcast t src grp true) ts s
  = (queue_all src grp s ts, Ret (map VWork (seq (d_next s) (length ts)))).
Proof.
  intros Hrk Hsrc. revert s Hrk. induction ts as [|t ts IH]; intros s Hrk; [done|].
  simpl. unfold bind at 1. rewrite dist_broadcast_async by done.
  unfold bind at 1. rewrite IH by by rewrite d_rank_queue_broadcast.
  by rewrite d_next_queue_broadcast.
Qed.

Lemma queue_all_cons src grp s t ts :
  queue_all src grp s (t :: ts)
  = queue_all src grp (queue_broadcast t src grp true s) ts.
Proof. reflexivity. Qed.

Lemma arriving_nil h id ts : arriving h id [] ts = h.
Proof. by destruct ts. Qed.

Lemma meta_arriving ts h id ib l : meta (arriving h id ib ts l) = meta (h l).
Proof.
  revert h id ib. induction ts as [|t ts IH]; intros h id [|pl ib]; try done.
  simpl. rewrite IH. apply meta_write_data.
Qed.

Lemma arriving_frame ts h id ib l : l ∉ ts → arriving h id ib ts l = h l.
Proof.
  revert h id ib. induction ts as [|t ts IH]; intros h id [|pl ib] Hl;
    try done.
  apply not_elem_of_cons in Hl as [Hne Hl]. simpl.
  rewrite IH by done. by apply write_data_ne.
Qed.

Lemma issues_from_same_metas h h' src grp nx ts :
  (∀ l, meta (h' l) = meta (h l)) →
  issues_from h' src grp nx ts = issues_from h src grp nx ts.
Proof.
  intros Hm. revert nx. induction ts as [|t ts IH]; intros nx; [done|].
  simpl. by rewrite Hm, IH.
Qed.

Lemma queue_all_source ts src grp h ib snt iss pend wtd nx :
  queue_all src grp (mkDist src h ib snt iss pend wtd nx) ts
  = mkDist src h (drop (length ts) ib)
           (snt ++ map (λ t, payload_of (h t)) ts)
           (iss ++ issues_from h src grp nx ts)
           (pend ++ works_from src grp nx ib ts)
           wtd (nx + length ts).
Proof.
  revert ib snt iss pend nx.
  induction ts as [|t ts IH]; intros ib snt iss pend nx.
  - simpl. by rewrite !app_nil_r, Nat.add_0_r, drop_0.
  - rewrite queue_all_cons. unfold queue_broadcast. simpl.
    rewrite decide_True by done. rewrite IH.
    rewrite <- !app_assoc. simpl. f_equal; [|lia].
    destruct ib; simpl; [by rewrite drop_nil|done].
Qed.

Lemma queue_all_other ts src grp rk h ib snt iss pend wtd nx :
  rk ≠ src →
  queue_all src grp (mkDist rk h ib snt iss pend wtd nx) ts
  = mkDist rk (arriving h nx ib ts) (drop (length ts) ib) snt
           (iss ++ issues_from h src grp nx ts)
           (pend ++ works_from src grp nx ib ts)
           wtd (nx + length ts).
Proof.
  intros Hrk. revert h ib iss pend nx.
  induction ts as [|t ts IH]; intros h ib iss pend nx.
  - simpl. by rewrite !app_nil_r, Nat.add_0_r, drop_0.
  - rewrite queue_all_cons. unfold queue_broadcast. simpl.
    rewrite decide_False by done. rewrite IH.
    rewrite <- !app_assoc. simpl.
    destruct ib as [|pl ib]; simpl.
    + rewrite arriving_nil, drop_nil. f_equal. lia.
    + rewrite (issues_from_same_metas h); [f_equal; lia|].
      intros l. apply meta_write_data.
Qed.


Lemma issues_from_tensor h src grp nx ts :
  map i_tensor (issues_from h src grp nx ts) = ts.
Proof. revert nx. induction ts; intros nx; simpl; [done|]. by rewrite IHts. Qed.


Lemma works_from_id src grp nx ib ts :
  map w_id (works_from src grp nx ib ts) = seq nx (length ts).
Proof.
  revert nx ib. induction ts; intros nx ib; simpl; [done|]. by rewrite IHts.
Qed.


Lemma works_from_src src grp nx ib ts :
  Forall (λ w, w_src w = src) (works_from src grp nx ib ts).
Proof.
  revert nx ib. induction ts; intros nx ib; simpl; constructor; auto.
Qed.

(** The state once the broadcasts of [ts] are queued, for any rank. *)
Lemma queue_all_run ts src grp rk h ib snt iss pend wtd nx :
  queue_all src grp (mkDist rk h ib snt iss pend wtd nx) ts
  = mkDist rk
           (if decide (rk = src) then h else arriving h nx ib ts)
           (drop (length ts) ib)
           (if decide (rk = src)
            then snt ++ map (λ t, payload_of (h t)) ts else snt)
           (iss ++ issues_from h src grp nx ts)
           (pend ++ works_from src grp nx ib ts)
           wtd (nx + length ts).
Proof.
  destruct (decide (rk = src)) as [->|Hne].
  - apply queue_all_source.
  - by apply queue_all_other.
Qed.


Lemma work_wait_waited id s : d_waited (work_wait id s).1 = d_waited s ++ [id].
Proof.
  unfold work_wait, complete, bind, modify, gets, ret, stall, raise, finish.
  simpl.
  destruct (find_work id (d_pending s)) as [w|]; [|done].
  destruct (w_incoming w) as [pl|]; simpl.
  - destruct (decide (fits _ pl)); simpl.
    + by destruct (decide (d_rank s = w_src w)).
    + done.
  - by destruct (gives_up c10d).
Qed.

Lemma bind_returns {S A B} (c : M S A) (k : A → M S B) s s' b :
  bind c k s = (s', Ret b) →
  ∃ s1 a, c s = (s1, Ret a) ∧ k a s1 = (s', Ret b).
Proof.
  unfold bind. destruct (c s) as [s1 [a| |]]; try done. by exists s1, a.
Qed.

Lemma py_wait_returns id s s' v :
  py_wait (VWork id) s = (s', Ret v) →
  d_waited s' = d_waited s ++ [id].
Proof.
  intros (s1 & b & Hw & Hret)%bind_returns. injection Hret as <- <-.
  pose proof (work_wait_waited id s) as Hwtd. by rewrite Hw in Hwtd.
Qed.

Lemma wait_loop_returns ids s s' vs :
  mapM py_wait (map VWork ids) s = (s', Ret vs) →
  d_waited s' = d_waited s ++ ids ∧ length vs = length ids.
Proof.
  revert s s' vs. induction ids as [|id ids IH]; intros s s' vs.
  - simpl. intros [= <- <-]. by rewrite app_nil_r.
  - cbn [map mapM].
    intros (s1 & v & Hv & (s2 & vs' & Hvs & Hret)%bind_returns)%bind_returns.
    apply py_wait_returns in Hv.
    apply IH in Hvs as [Hvs Hlen]. injection Hret as <- <-.
    rewrite Hvs, Hv. rewrite <- app_assoc. simpl. by rewrite Hlen.
Qed.

Section Preserved.
Context {S : Type} (R : S → S → Prop) `{!Reflexive R} `{!Transitive R}.

Lemma preserved_ret {A} (a : A) : preserved R (ret a).
Proof. intros s. simpl. reflexivity. Qed.

Lemma preserved_raise {A} e : preserved R (@raise S A e).
Proof. intros s. simpl. reflexivity. Qed.

Lemma preserved_stall {A} : preserved R (@stall S A).
Proof. intros s. simpl. reflexivity. Qed.

Lemma preserved_finish {A} (o : outcome A) : preserved R (finish o).
Proof. intros s. simpl. reflexivity. Qed.

Lemma preserved_gets {A} (f : S → A) : preserved R (gets f).
Proof. intros s. simpl. reflexivity. Qed.

Lemma preserved_modify (f : S → S) : (∀ s, R s (f s)) → preserved R (modify f).
Proof. intros Hf s. apply Hf. Qed.

Lemma preserved_bind {A B} (c : M S A) (k : A → M S B) :
  preserved R c → (∀ a, preserved R (k a)) → preserved R (bind c k).
Proof.
  intros Hc Hk s. unfold bind. specialize (Hc s).
  destruct (c s) as [s1 [a| |]]; simpl in *; [|done..].
  etrans; [exact Hc|apply Hk].
Qed.

Lemma preserved_mapM {A B} (f : A → M S B) (l : list A) :
  (∀ x, preserved R (f x)) → preserved R (mapM f l).
Proof.
  intros Hf. induction l as [|x l IH]; simpl; [apply preserved_ret|].
  apply preserved_bind; [apply Hf|]. intros y.
  apply preserved_bind; [apply IH|]. intros ys. apply preserved_ret.
Qed.

Lemma preserved_forM_ {A} (f : A → M S unit) (l : list A) :
  (∀ x, preserved R (f x)) → preserved R (forM_ f l).
Proof.
  intros Hf. induction l as [|x l IH]; simpl; [apply preserved_ret|].
  apply preserved_bind; [apply Hf|]. intros _. apply IH.
Qed.

End Preserved.

Global Instance same_metas_refl : Reflexive same_metas.
Proof. by intros h l. Qed.

Global Instance same_metas_trans : Transitive same_metas.
Proof. intros h1 h2 h3 H12 H23 l. by rewrite H23, H12. Qed.

Global Instance peer_in_place_refl : Reflexive peer_in_place.
Proof. intros p. unfold peer_in_place. reflexivity. Qed.

Global Instance peer_in_place_trans : Transitive peer_in_place.
Proof. intros p1 p2 p3. unfold peer_in_place. apply transitivity. Qed.

Global Instance dist_in_place_refl : Reflexive dist_in_place.
Proof. intros p. unfold dist_in_place. reflexivity. Qed.

Global Instance dist_in_place_trans : Transitive dist_in_place.
Proof. intros p1 p2 p3. unfold dist_in_place. apply transitivity. Qed.

Lemma same_metas_write h l d : same_metas h (write_data h l d).
Proof. intros l'. apply meta_write_data. Qed.

Create HintDb in_place.

Ltac in_place :=
  repeat first
    [ solve [auto with in_place]
    | apply preserved_ret; apply _
    | apply preserved_raise; apply _
    | apply preserved_stall; apply _
    | apply preserved_finish; apply _
    | apply preserved_gets; apply _
    | apply preserved_bind; [apply _| |intros ?]
    | apply preserved_mapM; [apply _..|intros ?]
    | apply preserved_forM_; [apply _..|intros ?]
    | match goal with
      | |- preserved _ (match ?x with _ => _ end) => destruct x
      end ].

(** *** mpi4py *)

Lemma recv_in_place : preserved peer_in_place recv.
Proof. intros p. unfold recv. destruct (p_inbox p); simpl; by intros ?. Qed.

Lemma called_in_place e : preserved peer_in_place (called e).
Proof. by intros p l. Qed.

Lemma send_in_place m : preserved peer_in_place (send m).
Proof. by intros p l. Qed.

Lemma print_in_place x : preserved peer_in_place (print x).
Proof. by intros p l. Qed.

Lemma overwrite_in_place l d :
  preserved peer_in_place (modify (with_heap (λ h, write_data h l d))).
Proof. intros p l'. simpl. apply meta_write_data. Qed.

#[local] Hint Resolve recv_in_place called_in_place send_in_place
  print_in_place overwrite_in_place : in_place.

Lemma fill_in_place a d : preserved peer_in_place (fill a d).
Proof. destruct a as [l|t]; simpl; in_place. Qed.

#[local] Hint Resolve fill_in_place : in_place.

Lemma comm_Bcast_in_place buf root :
  preserved peer_in_place (comm_Bcast buf root).
Proof. unfold comm_Bcast. in_place. Qed.

Lemma detach_cpu_numpy_in_place v :
  preserved peer_in_place (detach_cpu_numpy v).
Proof. intros p. rewrite detach_cpu_numpy_run. simpl. reflexivity. Qed.

Lemma copy__in_place model_v shared_v :
  preserved peer_in_place (copy_ model_v shared_v).
Proof. unfold copy_. in_place. Qed.

#[local] Hint Resolve comm_Bcast_in_place detach_cpu_numpy_in_place
  copy__in_place : in_place.

Lemma main_sync_params_in_place net :
  preserved peer_in_place (main_sync_params net).
Proof. unfold main_sync_params. in_place. Qed.

(** *** torch.distributed *)

Lemma queue_broadcast_meta t src grp a s l :
  meta (d_heap (queue_broadcast t src grp a s) l) = meta (d_heap s l).
Proof.
  unfold queue_broadcast. destruct (decide (d_rank s = src)); [done|].
  simpl. destruct (head (d_inbox s)); [apply meta_write_data|done].
Qed.

Lemma queue_in_place t src grp a :
  preserved dist_in_place (modify (queue_broadcast t src grp a)).
Proof. intros s l. simpl. apply queue_broadcast_meta. Qed.

Lemma dist_overwrite_in_place l d :
  preserved dist_in_place (modify (dist_with_heap (λ h, write_data h l d))).
Proof. intros s l'. simpl. apply meta_write_data. Qed.

Lemma dist_pending_in_place f :
  preserved dist_in_place (modify (dist_with_pending f)).
Proof. by intros s l. Qed.

Lemma dist_waited_in_place f :
  preserved dist_in_place (modify (dist_with_waited f)).
Proof. by intros s l. Qed.

#[local] Hint Resolve queue_in_place dist_overwrite_in_place
  dist_pending_in_place dist_waited_in_place : in_place.

Lemma complete_in_place rank w pl :
  preserved dist_in_place (complete rank w pl).
Proof. unfold complete. in_place. Qed.

#[local] Hint Resolve complete_in_place : in_place.

Lemma work_wait_in_place id : preserved dist_in_place (work_wait id).
Proof. unfold work_wait. in_place. Qed.

#[local] Hint Resolve work_wait_in_place : in_place.

Lemma dist_broadcast_in_place t src grp a :
  preserved dist_in_place (dist_broadcast t src grp a).
Proof. unfold dist_broadcast. in_place. Qed.

Lemma py_wait_in_place h : preserved dist_in_place (py_wait h).
Proof. unfold py_wait. in_place. Qed.

#[local] Hint Resolve dist_broadcast_in_place py_wait_in_place : in_place.

Lemma sync_in_place net src grp async_op :
  preserved dist_in_place (sync net src grp async_op).
Proof. unfold sync. in_place. Qed.

(** *** Waiting for broadcasts that can complete *)

Lemma find_work_fresh id old w rest :
  Forall (λ w', w_id w' ≠ id) old → w_id w = id →
  find_work id (old ++ w :: rest) = Some w.
Proof.
  intros Hold Hw. induction Hold as [|w' old Hw' Hold IH]; simpl.
  - by rewrite decide_True.
  - by rewrite decide_False.
Qed.

Lemma drop_work_none id ws :
  Forall (λ w', w_id w' ≠ id) ws → drop_work id ws = ws.
Proof.
  intros Hws. unfold drop_work. induction Hws as [|w ws Hw Hws IH]; [done|].
  rewrite filter_cons_True by done. by rewrite IH.
Qed.

Lemma drop_work_fresh id old w rest :
  Forall (λ w', w_id w' ≠ id) old → Forall (λ w', w_id w' ≠ id) rest →
  w_id w = id →
  drop_work id (old ++ w :: rest) = old ++ rest.
Proof.
  intros Hold Hrest Hw. unfold drop_work.
  rewrite filter_app, filter_cons_False by (intros Hne; by apply Hne).
  fold (drop_work id old) (drop_work id rest).
  by rewrite !drop_work_none.
Qed.

Lemma fits_same_metas x y pl : meta y = meta x → fits x pl → fits y pl.
Proof. unfold fits. by intros ->. Qed.

Lemma ready_same_metas h h' w :
  same_metas h h' → ready h w → ready h' w.
Proof.
  intros Hm (pl & Hpl & Hfit). exists pl. split; [done|].
  by apply (fits_same_metas (h (w_tensor w))).
Qed.

Lemma fitting_same_metas h h' ts ib :
  same_metas h h' → fitting h ts ib → fitting h' ts ib.
Proof.
  intros Hm. revert ib. induction ts as [|t ts IH]; intros [|pl ib]; try done.
  simpl. intros [Hfit Hrest]. split; [|by apply IH].
  by apply (fits_same_metas (h t)).
Qed.

Lemma fitting_app_l h ts1 ts2 ib :
  fitting h (ts1 ++ ts2) ib → fitting h ts1 ib.
Proof.
  revert ib. induction ts1 as [|t ts1 IH]; intros [|pl ib]; try done.
  simpl. intros [Hfit Hrest]. split; [done|by apply IH].
Qed.

Lemma works_from_ready h src grp nx ib ts :
  fitting h ts ib → length ts ≤ length ib →
  Forall (ready h) (works_from src grp nx ib ts).
Proof.
  revert nx ib. induction ts as [|t ts IH]; intros nx [|pl ib] Hfit Hlen;
    simpl in *; try lia; constructor.
  - exists pl. by destruct Hfit.
  - apply IH; [by destruct Hfit|lia].
Qed.

Lemma works_from_app src grp nx ib ts1 ts2 :
  works_from src grp nx ib (ts1 ++ ts2)
  = works_from src grp nx ib ts1
    ++ works_from src grp (nx + length ts1) (drop (length ts1) ib) ts2.
Proof.
  revert nx ib. induction ts1 as [|t ts1 IH]; intros nx ib; simpl.
  - by rewrite Nat.add_0_r, drop_0.
  - rewrite IH. do 3 f_equal; [lia|].
    destruct ib; simpl; [by rewrite drop_nil|done].
Qed.

Lemma mapM_head_raises {S A B} (f : A → M S B) x l s s' e :
  f x s = (s', Raise e) → mapM f (x :: l) s = (s', Raise e).
Proof. intros Hx. simpl. unfold bind at 1. by rewrite Hx. Qed.

Lemma mapM_head_stalls {S A B} (f : A → M S B) x l s s' :
  f x s = (s', Stall) → mapM f (x :: l) s = (s', Stall).
Proof. intros Hx. simpl. unfold bind at 1. by rewrite Hx. Qed.

(** *** In-place writes, one after the other *)

Lemma write_all_frame lds h l :
  l ∉ map fst lds → write_all h lds l = h l.
Proof.
  revert h. induction lds as [|[l0 d0] lds IH]; intros h Hl; [done|].
  simpl in *. apply not_elem_of_cons in Hl as [Hne Hl].
  unfold write_all in *. simpl. rewrite IH by done. by apply write_data_ne.
Qed.

Lemma write_all_at lds h l d :
  NoDup (map fst lds) → (l, d) ∈ lds →
  write_all h lds l = set_data (h l) d.
Proof.
  revert h. induction lds as [|[l0 d0] lds IH]; intros h Hnd Hin.
  - by apply elem_of_nil in Hin.
  - simpl in Hnd. apply NoDup_cons in Hnd as [Hl0 Hnd].
    unfold write_all in *. simpl.
    apply elem_of_cons in Hin as [Heq|Hin].
    + simplify_eq. rewrite (write_all_frame lds) by done.
      apply write_data_eq.
    + rewrite IH by done.
      assert (l ≠ l0) as Hne.
      { intros ->. apply Hl0. apply list_elem_of_fmap. by exists (l0, d). }
      by rewrite write_data_ne.
Qed.

Lemma meta_write_all lds h l : meta (write_all h lds l) = meta (h l).
Proof.
  revert h. induction lds as [|[l0 d0] lds IH]; intros h; [done|].
  unfold write_all in *. simpl. rewrite IH. apply meta_write_data.
Qed.

Lemma landed_cons h rk w ws :
  landed h rk (w :: ws)
  = landed (if decide (rk = w_src w) then h
            else match w_incoming w with
                 | Some pl => write_data h (w_tensor w) (pl_data pl)
                 | None => h
                 end) rk ws.
Proof. reflexivity. Qed.

Lemma landed_at_source h rk ws :
  Forall (λ w, w_src w = rk) ws → landed h rk ws = h.
Proof.
  intros Hws. induction Hws as [|w ws Hw Hws IH]; [done|].
  rewrite landed_cons, decide_True by done. exact IH.
Qed.

Lemma zip_nil_r {A B} (l : list A) : zip l (@nil B) = [].
Proof. by destruct l. Qed.

Lemma zip_app_short {A B} (l1 l2 : list A) (ds : list B) :
  length ds ≤ length l1 → zip (l1 ++ l2) ds = zip l1 ds.
Proof.
  revert ds. induction l1 as [|x l1 IH]; intros [|d ds] Hlen; simpl in *;
    try lia; try done.
  - by rewrite zip_nil_r.
  - rewrite IH; [done|lia].
Qed.

Lemma landed_received h rk src grp nx ib ts :
  rk ≠ src →
  landed h rk (works_from src grp nx ib ts)
  = write_all h (zip ts (map pl_data ib)).
Proof.
  intros Hrk. revert h nx ib.
  induction ts as [|t ts IH]; intros h nx [|pl ib]; try done.
  - cbn [works_from map head tail]. rewrite landed_cons. cbn [w_src].
    rewrite decide_False by done. cbn [w_incoming].
    rewrite IH. cbn [map]. by rewrite !zip_nil_r.
  - cbn [works_from map head tail]. rewrite landed_cons. cbn [w_src].
    rewrite decide_False by done. cbn [w_incoming w_tensor].
    by rewrite IH.
Qed.

(** [wait()] on a broadcast that can complete, and on one that the rest
    of the group never joins. *)
Lemma py_wait_ready old w more rk h ib snt iss wtd nx pl :
  Forall (λ w', w_id w' ≠ w_id w) old →
  Forall (λ w', w_id w' ≠ w_id w) more →
  w_incoming w = Some pl → fits (h (w_tensor w)) pl →
  py_wait (VWork (w_id w))
          (mkDist rk h ib snt iss (old ++ w :: more) wtd nx)
  = (mkDist rk (if decide (rk = w_src w) then h
                else write_data h (w_tensor w) (pl_data pl))
            ib snt iss (old ++ more) (wtd ++ [w_id w]) nx,
     Ret (VBool true)).
Proof.
  intros Hold Hmore Hpl Hfit.
  unfold py_wait, work_wait, complete, bind, modify, gets, ret,
    dist_with_pending, dist_with_waited, dist_with_heap.
  cbn -[drop_work find_work].
  rewrite find_work_fresh by done. rewrite Hpl.
  cbn -[drop_work find_work]. rewrite decide_True by done.
  destruct (decide (rk = w_src w)); cbn -[drop_work find_work];
    by rewrite drop_work_fresh.
Qed.

Lemma py_wait_missing old w more rk h ib snt iss wtd nx :
  Forall (λ w', w_id w' ≠ w_id w) old →
  w_incoming w = None →
  py_wait (VWork (w_id w))
          (mkDist rk h ib snt iss (old ++ w :: more) wtd nx)
  = (mkDist rk h ib snt iss (old ++ w :: more) (wtd ++ [w_id w]) nx,
     match gives_up c10d with
     | None => Stall
     | Some e => Raise e
     end).
Proof.
  intros Hold Hnone.
  unfold py_wait, work_wait, bind, modify, gets, ret, stall, raise,
    dist_with_pending, dist_with_waited, dist_with_heap.
  cbn -[drop_work find_work].
  rewrite find_work_fresh by done. rewrite Hnone.
  by destruct (gives_up c10d).
Qed.

(** The waiting loop over the broadcasts [news1] that can complete,
    with those of [news2] queued behind them. *)
Lemma wait_loop_prefix news1 news2 old rk h ib snt iss wtd nx :
  NoDup (map w_id (news1 ++ news2)) →
  Forall (λ w, w_id w ∉ map w_id (news1 ++ news2)) old →
  Forall (ready h) news1 →
  mapM py_wait (map VWork (map w_id (news1 ++ news2)))
       (mkDist rk h ib snt iss (old ++ news1 ++ news2) wtd nx)
  = match mapM py_wait (map VWork (map w_id news2))
            (mkDist rk (landed h rk news1) ib snt iss (old ++ news2)
                    (wtd ++ map w_id news1) nx) with
    | (s', Ret vs) => (s', Ret (map (λ _, VBool true) news1 ++ vs))
    | (s', Raise e) => (s', Raise e)
    | (s', Stall) => (s', Stall)
    end.
Proof.
  revert h wtd.
  induction news1 as [|w news1 IH]; intros h wtd Hnd Hold Hready.
  - cbn [app map landed foldl]. rewrite app_nil_r.
    by destruct (mapM _ _ _) as [s' [vs| |]].
  - cbn [app map] in Hnd. apply NoDup_cons in Hnd as [Hw Hnd].
    apply Forall_cons in Hready as [(pl & Hpl & Hfit) Hready].
    assert (Forall (λ w', w_id w' ≠ w_id w) old) as Hold1.
    { eapply Forall_impl; [exact Hold|]. intros w' Hw' Heq. apply Hw'.
      cbn [app map]. rewrite Heq. apply list_elem_of_here. }
    assert (Forall (λ w', w_id w' ≠ w_id w) (news1 ++ news2)) as Hnews1.
    { apply Forall_forall. intros w' Hin Heq. apply Hw. rewrite <- Heq.
      by apply list_elem_of_fmap_2. }
    assert (Forall (λ w', w_id w' ∉ map w_id (news1 ++ news2)) old)
      as Hold2.
    { eapply Forall_impl; [exact Hold|]. intros w' Hw' Hin. apply Hw'.
      cbn [app map]. by apply list_elem_of_further. }
    cbn [app map mapM]. unfold bind at 1.
    rewrite (py_wait_ready old w (news1 ++ news2) rk h ib snt iss wtd nx pl)
      by done.
    unfold bind at 1. rewrite IH; [|done|done|].
    + rewrite landed_cons, Hpl. rewrite <- app_assoc. cbn [app].
      by destruct (mapM _ _ _) as [s' [vs| |]].
    + eapply Forall_impl; [exact Hready|]. intros w'.
      apply ready_same_metas. intros l.
      destruct (decide (rk = w_src w)); [done|apply meta_write_data].
Qed.

(** ** [BaseNetwork.sync]: what is queued and what is waited for *)

Global Instance same_issued_refl : Reflexive same_issued.
Proof. by intros s. Qed.

Global Instance same_issued_trans : Transitive same_issued.
Proof. intros s1 s2 s3 H12 H23. unfold same_issued in *. congruence. Qed.

Lemma heap_same_issued f : preserved same_issued (modify (dist_with_heap f)).
Proof. by intros s. Qed.

Lemma pending_same_issued f :
  preserved same_issued (modify (dist_with_pending f)).
Proof. by intros s. Qed.

Lemma waited_same_issued f :
  preserved same_issued (modify (dist_with_waited f)).
Proof. by intros s. Qed.

#[local] Hint Resolve heap_same_issued pending_same_issued
  waited_same_issued : in_place.


Global Instance same_sent_refl : Reflexive same_sent.
Proof. by intros s. Qed.

Global Instance same_sent_trans : Transitive same_sent.
Proof. intros s1 s2 s3 H12 H23. unfold same_sent in *. congruence. Qed.

Lemma heap_same_sent f : preserved same_sent (modify (dist_with_heap f)).
Proof. by intros s. Qed.

Lemma pending_same_sent f :
  preserved same_sent (modify (dist_with_pending f)).
Proof. by intros s. Qed.

Lemma waited_same_sent f :
  preserved same_sent (modify (dist_with_waited f)).
Proof. by intros s. Qed.

#[local] Hint Resolve heap_same_sent pending_same_sent
  waited_same_sent : in_place.

Lemma py_wait_same_sent h : preserved same_sent (py_wait h).
Proof. unfold py_wait, work_wait, complete. in_place. Qed.

Lemma length_values {K V} (d : list (K * V)) : length (values d) = length d.
Proof. unfold values. apply length_map. Qed.

Lemma map_const_eq {A B C} (c : C) (l1 : list A) (l2 : list B) :
  length l1 = length l2 → map (λ _, c) l1 = map (λ _, c) l2.
Proof.
  revert l2. induction l1 as [|x l1 IH]; intros [|y l2] Hlen;
    try discriminate; [done|].
  simpl. f_equal. apply IH. by injection Hlen.
Qed.

Lemma mapM_const {S A B} (f : A → M S B) (v : B) (l : list A) s :
  (∀ x, f x s = (s, Ret v)) → mapM f l s = (s, Ret (map (λ _, v) l)).
Proof.
  intros Hf. induction l as [|x l IH]; [done|].
  simpl. unfold bind at 1. rewrite Hf. unfold bind at 1. by rewrite IH.
Qed.

(** [sync] between members of the group: every broadcast is queued, and
    a blocking call then waits for each. *)
Lemma sync_run net src grp async_op s :
  d_rank s ∈ grp → src ∈ grp →
  sync net src grp async_op s
  = if default false async_op
    then (queue_all src grp s (values (state_dict net)),
          Ret (map VWork (seq (d_next s)
                              (length (values (state_dict net))))))
    else mapM py_wait
              (map VWork (seq (d_next s)
                              (length (values (state_dict net)))))
              (queue_all src grp s (values (state_dict net))).
Proof.
  intros Hrk Hsrc. unfold sync. unfold bind at 1. rewrite queue_loop by done.
  by destruct (default false async_op).
Qed.

(** [sync] on a peer that is not in the group: every [dist.broadcast]
    returns [None], which has no [wait]. *)
Lemma sync_outside net src grp async_op s :
  d_rank s ∉ grp →
  sync net src grp async_op s
  = (s, if default false async_op
        then Ret (map (λ _, VNone) (values (state_dict net)))
        else match values (state_dict net) with
             | [] => Ret []
             | _ :: _ => Raise AttributeError
             end).
Proof.
  intros Hrk. unfold sync. unfold bind at 1.
  rewrite (mapM_const _ VNone)
    by (intros t; by apply dist_broadcast_outside).
  destruct (default false async_op); [done|]. simpl.
  by destruct (values (state_dict net)).
Qed.

(** [sync] with a source that is not in the group: the first
    [dist.broadcast] raises. *)
Lemma sync_invalid_root net src grp async_op s :
  d_rank s ∈ grp → src ∉ grp →
  sync net src grp async_op s
  = (s, match values (state_dict net) with
        | [] => Ret []
        | _ :: _ => Raise (invalid_root c10d)
        end).
Proof.
  intros Hrk Hsrc. unfold sync. unfold bind at 1.
  destruct (values (state_dict net)) as [|t ts].
  - simpl. by destruct (negb (default false async_op)).
  - by rewrite (mapM_head_raises _ t ts s s (invalid_root c10d))
      by by apply dist_broadcast_invalid_root.
Qed.



Lemma sync_sent net src grp async_op s :
  d_rank s ∈ grp → src ∈ grp →
  sent_since s (sync net src grp async_op s).1
  = if decide (d_rank s = src)
    then map (λ t, payload_of (d_heap s t)) (values (state_dict net))
    else [].
Proof.
  intros Hrk Hsrc. rewrite sync_run by done.
  assert (sent_since s (queue_all src grp s (values (state_dict net)))
          = if decide (d_rank s = src)
            then map (λ t, payload_of (d_heap s t))
                     (values (state_dict net))
            else []) as Hq.
  { destruct s as [rk h ib snt iss pend wtd nx]. rewrite queue_all_run.
    unfold sent_since. cbn [d_sent d_rank d_heap].
    destruct (decide (rk = src)); [by rewrite drop_app_length|].
    apply drop_all. }
  destruct (default false async_op); simpl; [done|].
  unfold sent_since in *. rewrite <- Hq. f_equal.
  apply (preserved_mapM same_sent); [apply _..|].
  intros h. apply py_wait_same_sent.
Qed.


Lemma state_topology_same_metas h h' net :
  same_metas h h' → state_topology h' net = state_topology h net.
Proof.
  intros Hm. unfold state_topology. apply map_ext. intros kv. by rewrite Hm.
Qed.

Lemma param_topology_same_metas h h' net :
  same_metas h h' → param_topology h' net = param_topology h net.
Proof.
  intros Hm. unfold param_topology. apply map_ext. intros l. by rewrite Hm.
Qed.

(** A blocking [sync] for which the rest of the group joins every
    broadcast: it returns, and away from the source the tensors hold
    what was sent. *)
Lemma sync_blocking_joined net src grp rk h ib snt iss pend wtd nx :
  matched net src grp (mkDist rk h ib snt iss pend wtd nx) →
  dist_wf (mkDist rk h ib snt iss pend wtd nx) →
  length (values (state_dict net)) ≤ length ib →
  sync net src grp None (mkDist rk h ib snt iss pend wtd nx)
  = (mkDist rk
            (if decide (rk = src) then h
             else write_all (arriving h nx ib (values (state_dict net)))
                            (zip (values (state_dict net))
                                 (map pl_data ib)))
            (drop (length (values (state_dict net))) ib)
            (if decide (rk = src)
             then snt ++ map (λ t, payload_of (h t))
                             (values (state_dict net))
             else snt)
            (iss ++ issues_from h src grp nx (values (state_dict net)))
            pend
            (wtd ++ seq nx (length (values (state_dict net))))
            (nx + length (values (state_dict net))),
     Ret (map (λ _, VBool true) (values (state_dict net)))).
Proof.
  intros (Hrk & Hsrc & Hfit) Hwf Hlen. cbn [d_rank d_heap d_inbox] in *.
  rewrite sync_run by done. cbn [default d_next].
  generalize dependent (values (state_dict net)). intros ts Hfit Hlen.
  rewrite queue_all_run.
  set (hq := if decide (rk = src) then h else arriving h nx ib ts).
  assert (same_metas h hq) as Hm.
  { intros l. subst hq. destruct (decide (rk = src)); [done|].
    apply meta_arriving. }
  pose proof (wait_loop_prefix (works_from src grp nx ib ts) [] pend rk hq
                (drop (length ts) ib)
                (if decide (rk = src)
                 then snt ++ map (λ t, payload_of (h t)) ts else snt)
                (iss ++ issues_from h src grp nx ts)
                wtd (nx + length ts)) as Hrun.
  rewrite !app_nil_r in Hrun. rewrite works_from_id in Hrun.
  rewrite Hrun; clear Hrun.
  - cbn [map mapM]. unfold ret. rewrite !app_nil_r. f_equal.
    + f_equal. subst hq. destruct (decide (rk = src)) as [->|Hne].
      * apply landed_at_source, works_from_src.
      * by apply landed_received.
    + f_equal. apply map_const_eq.
      by rewrite <- (length_map w_id), works_from_id, length_seq.
  - apply NoDup_seq.
  - eapply Forall_impl; [exact Hwf|]. intros w Hw Hin.
    apply elem_of_seq in Hin. simpl in Hw. lia.
  - eapply Forall_impl; [by apply works_from_ready|]. intros w.
    by apply ready_same_metas.
Qed.

(** A blocking [sync] for which the rest of the group joins the
    broadcasts of the tensors [ts1] only: the wait for the next one
    does not return. *)
Lemma sync_blocking_starved net src grp ts1 t ts2 rk h ib snt iss pend
    wtd nx :
  matched net src grp (mkDist rk h ib snt iss pend wtd nx) →
  dist_wf (mkDist rk h ib snt iss pend wtd nx) →
  values (state_dict net) = ts1 ++ t :: ts2 →
  length ib = length ts1 →
  sync net src grp None (mkDist rk h ib snt iss pend wtd nx)
  = (mkDist rk
            (if decide (rk = src) then h
             else write_all (arriving h nx ib (ts1 ++ t :: ts2))
                            (zip ts1 (map pl_data ib)))
            []
            (if decide (rk = src)
             then snt ++ map (λ t, payload_of (h t)) (ts1 ++ t :: ts2)
             else snt)
            (iss ++ issues_from h src grp nx (ts1 ++ t :: ts2))
            (pend ++ works_from src grp (nx + length ts1) [] (t :: ts2))
            (wtd ++ seq nx (S (length ts1)))
            (nx + length (ts1 ++ t :: ts2)),
     match gives_up c10d with
     | None => Stall
     | Some e => Raise e
     end).
Proof.
  intros (Hrk & Hsrc & Hfit) Hwf Hts Hlen. cbn [d_rank d_heap d_inbox] in *.
  rewrite sync_run by done. cbn [default d_next]. rewrite Hts in *.
  rewrite queue_all_run.
  set (hq := if decide (rk = src) then h
             else arriving h nx ib (ts1 ++ t :: ts2)).
  assert (same_metas h hq) as Hm.
  { intros l. subst hq. destruct (decide (rk = src)); [done|].
    apply meta_arriving. }
  assert (drop (length ts1) ib = []) as Hdrop by (apply drop_ge; lia).
  assert (works_from src grp nx ib (ts1 ++ t :: ts2)
          = works_from src grp nx ib ts1
            ++ works_from src grp (nx + length ts1) [] (t :: ts2)) as Hsplit
    by by rewrite works_from_app, Hdrop.
  assert (drop (length (ts1 ++ t :: ts2)) ib = []) as ->
    by (apply drop_ge; rewrite length_app; lia).
  rewrite <- (works_from_id src grp nx ib (ts1 ++ t :: ts2)).
  rewrite Hsplit.
  rewrite wait_loop_prefix.
  - cbn [works_from map head tail].
    set (w := mkWork (nx + length ts1) t src grp None).
    set (more := works_from src grp (S (nx + length ts1)) [] ts2).
    assert (Forall (λ w', w_id w' ≠ w_id w) pend) as Hold.
    { eapply Forall_impl; [exact Hwf|]. intros w' Hw'. simpl in *. lia. }
    pose proof (py_wait_missing pend w more rk
                  (landed hq rk (works_from src grp nx ib ts1)) []
                  (if decide (rk = src)
                   then snt ++ map (λ t, payload_of (h t)) (ts1 ++ t :: ts2)
                   else snt)
                  (iss ++ issues_from h src grp nx (ts1 ++ t :: ts2))
                  (wtd ++ map w_id (works_from src grp nx ib ts1))
                  (nx + length (ts1 ++ t :: ts2)) Hold eq_refl) as Hw.
    assert (landed hq rk (works_from src grp nx ib ts1)
            = if decide (rk = src) then h
              else write_all (arriving h nx ib (ts1 ++ t :: ts2))
                             (zip ts1 (map pl_data ib))) as Hland.
    { subst hq. destruct (decide (rk = src)) as [->|Hne].
      - apply landed_at_source, works_from_src.
      - by apply landed_received. }
    rewrite Hland in *.
    assert (wtd ++ map w_id (works_from src grp nx ib ts1) ++ [w_id w]
            = wtd ++ seq nx (S (length ts1))) as Hseq.
    { rewrite works_from_id. by rewrite seq_S. }
    rewrite <- app_assoc, Hseq in Hw.
    destruct (gives_up c10d) as [e|].
    + by rewrite (mapM_head_raises py_wait _ _ _ _ _ Hw).
    + by rewrite (mapM_head_stalls py_wait _ _ _ _ Hw).
  - rewrite <- Hsplit, works_from_id. apply NoDup_seq.
  - rewrite <- Hsplit, works_from_id.
    eapply Forall_impl; [exact Hwf|]. intros w Hw Hin.
    apply elem_of_seq in Hin. simpl in Hw. lia.
  - eapply Forall_impl.
    + apply works_from_ready; [by eapply fitting_app_l|lia].
    + intros w. by apply ready_same_metas.
Qed.



(** C8. Whatever [sync] or the synchronisation in [main] does to the
    memory of a peer, and however it ends, every buffer keeps its shape
    and dtype; the buffers of the network, by position, and those of its
    state dictionary, by key and position, are as many and in the same
    order as before. *)
Theorem sync_only_overwrites :
  (∀ net src grp async_op (s : Dist),
     same_metas (d_heap s) (d_heap (sync net src grp async_op s).1) ∧
     state_topology (d_heap (sync net src grp async_op s).1) net
     = state_topology (d_heap s) net ∧
     param_topology (d_heap (sync net src grp async_op s).1) net
     = param_topology (d_heap s) net) ∧
  (∀ net (p : Peer),
     same_metas (p_heap p) (p_heap (main_sync_params net p).1) ∧
     state_topology (p_heap (main_sync_params net p).1) net
     = state_topology (p_heap p) net ∧
     param_topology (p_heap (main_sync_params net p).1) net
     = param_topology (p_heap p) net).
Proof.
  split.
  - intros net src grp async_op s.
    pose proof (sync_in_place net src grp async_op s) as Hm.
    split; [exact Hm|].
    split; [by apply state_topology_same_metas
           |by apply param_topology_same_metas].
  - intros net p. pose proof (main_sync_params_in_place net p) as Hm.
    split; [exact Hm|].
    split; [by apply state_topology_same_metas
           |by apply param_topology_same_metas].
Qed.

(** ** Enumeration order *)








Lemma od_set_fresh {V} (d : list (string * V)) k v :
  k ∉ map fst d → od_set d k v = d ++ [(k, v)].
Proof.
  induction d as [|[k' v'] d IH]; simpl; [done|].
  intros [Hne Hd]%not_elem_of_cons.
  rewrite decide_False by done. by rewrite IH.
Qed.

Lemma od_build {A V} (key : A → string) (val : A → V) acc (l : list A) :
  NoDup (map fst acc ++ map key l) →
  foldl (λ d x, od_set d (key x) (val x)) acc l
  = acc ++ map (λ x, (key x, val x)) l.
Proof.
  revert acc. induction l as [|x l IH]; intros acc Hnd; simpl.
  - by rewrite app_nil_r.
  - simpl in Hnd. apply NoDup_app in Hnd as (Hacc & Hsep & Hl).
    apply NoDup_cons in Hl as [Hx Hl].
    rewrite od_set_fresh.
    + rewrite IH; [by rewrite <- app_assoc|].
      rewrite map_app. simpl. rewrite <- app_assoc. simpl.
      apply NoDup_app. split; [done|]. split; [done|by constructor].
    + intros Hin. apply (Hsep _ Hin). apply list_elem_of_here.
Qed.







Lemma issues_from_length h src grp nx ts :
  length (issues_from h src grp nx ts) = length ts.
Proof. by rewrite <- (length_map i_tensor), issues_from_tensor. Qed.




(** ** The shared run identity *)

Ltac by_rank :=
  repeat match goal with
         | |- context [decide (?r = 0)] =>
             destruct (decide (r = 0)); [try done|try done]; simpl
         | |- context [decide (?r ≠ 0)] =>
             destruct (decide (r ≠ 0)); [try done|try done]; simpl
         end.

Section RunIdentityFacts.

Variable make_log_id_from_timestamp :
  string → string → string → string → string → string.


Lemma run_identity_root_created args h ck ds md ib snt tr out :
  log_id_dir_of make_log_id_from_timestamp args ck ∉ ds →
  main_run_identity make_log_id_from_timestamp args (mkPeer 0 h ck (mkFs ds true) md ib snt tr out)
  = (mkPeer 0 h ck (mkFs (log_id_dir_of make_log_id_from_timestamp args ck :: ds) true)
            (log_id_dir_of make_log_id_from_timestamp args ck :: md) ib
            (snt ++ [MObj (PyStr ck); MBarrier])
            (tr ++ [EvBcastObj 0; EvBarrier])
            (out ++ [AsciiLogo]),
     Ret (PyStr ck, Some (log_id_dir_of make_log_id_from_timestamp args ck))).
Proof.
  intros Hnew.
  unfold main_run_identity, os_makedirs, comm_bcast, comm_Barrier, bind,
    gets, modify, called, send, print, ret, with_made, with_fs,
    with_trace, with_sent, with_stdout, with_inbox.
  simpl. rewrite decide_False by done. simpl.
  by rewrite <- !app_assoc.
Qed.

Lemma run_identity_root_failed args h ck f md ib snt tr out :
  log_id_dir_of make_log_id_from_timestamp args ck ∈ dirs f
  ∨ writable f = false →
  ∃ e, main_run_identity make_log_id_from_timestamp args (mkPeer 0 h ck f md ib snt tr out)
       = (mkPeer 0 h ck f
                 (log_id_dir_of make_log_id_from_timestamp args ck :: md)
                 ib snt tr out,
          Raise e).
Proof.
  intros Hfail.
  unfold main_run_identity, os_makedirs, comm_bcast, comm_Barrier, bind,
    gets, modify, called, send, print, ret, raise, with_made, with_fs,
    with_trace, with_sent, with_stdout, with_inbox.
  simpl. destruct (decide (_ ∈ dirs f)) as [Hin|Hout]; simpl.
  - by exists FileExistsError.
  - destruct Hfail as [?|Hro]; [done|]. rewrite Hro. simpl.
    by exists PermissionError.
Qed.

Lemma run_identity_other args rk h ck f md ts rest snt tr out :
  rk ≠ 0 →
  main_run_identity make_log_id_from_timestamp args
    (mkPeer rk h ck f md (MObj (PyStr ts) :: MBarrier :: rest) snt tr out)
  = (mkPeer rk h ck f md rest snt (tr ++ [EvBcastObj 0; EvBarrier]) out,
     Ret (PyStr ts, Some (log_id_dir_of make_log_id_from_timestamp args ts))).
Proof.
  intros Hrk.
  unfold main_run_identity, comm_bcast, comm_Barrier, bind,
    gets, modify, called, recv, ret, with_trace, with_inbox.
  simpl. by_rank. by rewrite <- !app_assoc.
Qed.

Lemma run_identity_other_stalled args rk h ck f md snt tr out :
  rk ≠ 0 →
  main_run_identity make_log_id_from_timestamp args (mkPeer rk h ck f md [] snt tr out)
  = (mkPeer rk h ck f md [] snt (tr ++ [EvBcastObj 0]) out, Stall).
Proof.
  intros Hrk.
  unfold main_run_identity, comm_bcast, comm_Barrier, bind,
    gets, modify, called, recv, ret, with_trace, with_inbox.
  simpl. by by_rank.
Qed.

(** A peer of rank [r > 0] neither creates nor inspects a directory,
    whatever reaches it. *)
Lemma run_identity_other_no_fs args p :
  p_rank p ≠ 0 →
  p_made (main_run_identity make_log_id_from_timestamp args p).1 = p_made p ∧
  p_fs (main_run_identity make_log_id_from_timestamp args p).1 = p_fs p ∧
  ∀ f, (main_run_identity make_log_id_from_timestamp args (with_fs (λ _, f) p)).2 = (main_run_identity make_log_id_from_timestamp args p).2.
Proof.
  destruct p as [rk h ck f md ib snt tr out]. simpl. intros Hrk.
  unfold main_run_identity, comm_bcast, comm_Barrier, bind,
    gets, modify, called, recv, ret, raise, with_fs, with_trace,
    with_inbox.
  simpl. by_rank.
  destruct ib as [|[[|ts]| |] ib]; simpl; try done.
  by_rank. destruct ib as [|[| |] ib]; simpl; done.
Qed.


(** C5. When rank 0 has created the log directory and broadcast its
    timestamp, every peer of a group that shares its configuration
    returns from lines 41-60 with the timestamp of rank 0 and with the
    log directory path rank 0 computed; each peer computes the path
    itself from the timestamp it was sent, and the only broadcast made
    is that of the timestamp. *)
Theorem run_identity_shared (l0 : Local) (ls : list Local)
    (r : nat) (l : Local) :
  (∀ l', l' ∈ ls → l_args l' = l_args l0) →
  log_id_dir_of make_log_id_from_timestamp (l_args l0) (l_clock l0)
    ∉ dirs (l_fs l0) →
  writable (l_fs l0) = true →
  (l0 :: ls) !! r = Some l →
  ∃ p,
    launch (λ l, main_run_identity make_log_id_from_timestamp (l_args l))
           (l0 :: ls) !! r
    = Some (p, Ret (PyStr (l_clock l0),
                    Some (log_id_dir_of make_log_id_from_timestamp
                                        (l_args l) (l_clock l0)))) ∧
    log_id_dir_of make_log_id_from_timestamp (l_args l) (l_clock l0)
    = log_id_dir_of make_log_id_from_timestamp (l_args l0) (l_clock l0) ∧
    p_trace p = [EvBcastObj 0; EvBarrier] ∧
    p_sent p = if decide (r = 0) then [MObj (PyStr (l_clock l0)); MBarrier]
               else [].
Proof.
  intros Hargs Hnew Hrw Hl.
  assert (main_run_identity make_log_id_from_timestamp (l_args l0)
            (boot 0 l0 [])
          = (mkPeer 0 (l_heap l0) (l_clock l0)
               (mkFs (log_id_dir_of make_log_id_from_timestamp (l_args l0)
                                    (l_clock l0) :: dirs (l_fs l0)) true)
               [log_id_dir_of make_log_id_from_timestamp (l_args l0)
                              (l_clock l0)] []
               [MObj (PyStr (l_clock l0)); MBarrier]
               [EvBcastObj 0; EvBarrier] [AsciiLogo],
             Ret (PyStr (l_clock l0),
                  Some (log_id_dir_of make_log_id_from_timestamp (l_args l0)
                                      (l_clock l0))))) as Hroot.
  { unfold boot. destruct (l_fs l0) as [ds w]. simpl in *. subst w.
    by rewrite run_identity_root_created. }
  destruct r as [|i].
  - injection Hl as <-. eexists. rewrite launch_lookup_root, Hroot.
    by repeat split.
  - simpl in Hl. assert (l ∈ ls) as Hin by by eapply list_elem_of_lookup_2.
    eexists. rewrite (launch_lookup_other _ l0 ls i l Hl), Hroot. simpl.
    unfold boot. rewrite run_identity_other by done.
    rewrite (Hargs l Hin). by repeat split.
Qed.

(** C9, amended. Only rank 0 calls [os.makedirs], and it does so before
    it broadcasts the timestamp. If the call fails, rank 0 ends with the
    exception without having broadcast anything, and a peer of rank
    [r > 0] makes its broadcast call and never returns from it: it
    derives no path. If the call succeeds, that peer derives the path of
    rank 0 (the configuration being shared). In both cases it makes no
    [os.makedirs] call and its view of the directories is untouched. *)
Theorem log_dir_created_at_root_only (l0 : Local) (ls : list Local)
    (i : nat) (l : Local) :
  (∀ l', l' ∈ ls → l_args l' = l_args l0) →
  ls !! i = Some l →
  let res :=
    launch (λ l, main_run_identity make_log_id_from_timestamp (l_args l))
           (l0 :: ls) in
  let dir :=
    log_id_dir_of make_log_id_from_timestamp (l_args l0) (l_clock l0) in
  (∃ p o, res !! S i = Some (p, o) ∧ p_made p = [] ∧ p_fs p = l_fs l) ∧
  (dir ∈ dirs (l_fs l0) ∨ writable (l_fs l0) = false →
   (∃ p e, res !! 0 = Some (p, Raise e) ∧ p_made p = [dir] ∧
           p_sent p = [] ∧ p_trace p = []) ∧
   (∃ p, res !! S i = Some (p, Stall) ∧ p_trace p = [EvBcastObj 0])) ∧
  (dir ∉ dirs (l_fs l0) → writable (l_fs l0) = true →
   (∃ p, res !! 0 = Some (p, Ret (PyStr (l_clock l0), Some dir)) ∧
         p_made p = [dir] ∧ dir ∈ dirs (p_fs p)) ∧
   (∃ p, res !! S i = Some (p, Ret (PyStr (l_clock l0), Some dir)) ∧
         p_trace p = [EvBcastObj 0; EvBarrier])).
Proof.
  intros Hargs Hl res dir. subst res.
  assert (l ∈ ls) as Hin by by eapply list_elem_of_lookup_2.
  rewrite launch_lookup_root, (launch_lookup_other _ l0 ls i l Hl).
  split; [|split].
  - destruct (main_run_identity _ (l_args l) (boot (S i) l _))
      as [p o] eqn:Hrun.
    exists p, o. split; [done|].
    pose proof (run_identity_other_no_fs (l_args l)
                  (boot (S i) l
                     (p_sent (main_run_identity make_log_id_from_timestamp
                                (l_args l0) (boot 0 l0 [])).1))
                  ltac:(simpl; lia)) as (Hmade & Hfs & _).
    rewrite Hrun in Hmade, Hfs. simpl in *. by rewrite Hmade, Hfs.
  - intros Hfail.
    destruct (run_identity_root_failed (l_args l0) (l_heap l0) (l_clock l0)
                (l_fs l0) [] [] [] [] [] Hfail) as [e Hroot].
    unfold boot at 1 3. rewrite Hroot. simpl. split.
    + eexists _, e. by repeat split.
    + unfold boot. rewrite run_identity_other_stalled by done.
      eexists. by split.
  - intros Hnew Hrw. unfold boot at 1 3.
    destruct (l_fs l0) as [ds w] eqn:Hfs. simpl in *. subst w.
    rewrite run_identity_root_created by done. simpl. split.
    + eexists. split; [done|]. split; [done|]. simpl.
      apply list_elem_of_here.
    + unfold boot. rewrite run_identity_other by done. simpl.
      eexists. split; [by rewrite (Hargs l Hin)|done].
Qed.

End RunIdentityFacts.

Lemma run_identity_shared_witness :
  ∃ p, launch (λ l, main_run_identity sample_log_id (l_args l))
              (sample_group fresh_fs) !! 2
       = Some (p, Ret (PyStr "2018-11-03_10-00-00",
                       Some "/tmp/Pong/run_P2P_ActorCritic_FourConvLSTM_2018-11-03_10-00-00"))
       ∧ p_trace p = [EvBcastObj 0; EvBarrier].
Proof.
  destruct (run_identity_shared sample_log_id
              (sample_local 4 "2018-11-03_10-00-00" fresh_fs sample_heap_root)
              [sample_local 4 "2018-11-03_10-00-07" fresh_fs sample_heap_host;
               sample_local 4 "2018-11-03_09-59-58" fresh_fs
                            sample_heap_device]
              2
              (sample_local 4 "2018-11-03_09-59-58" fresh_fs
                            sample_heap_device))
    as (p & Hrun & _ & Htrace & _).
  - intros l' Hin. repeat (apply elem_of_cons in Hin as [->|Hin]);
      [reflexivity..|by apply elem_of_nil in Hin].
  - vm_compute. intros Hin.
    repeat (apply elem_of_cons in Hin as [Hin|Hin]; [discriminate|]).
    by apply elem_of_nil in Hin.
  - reflexivity.
  - reflexivity.
  - exists p. split; [exact Hrun|exact Htrace].
Defined.

(** C9, as stated, does not hold: when the log directory already exists,
    rank 0 raises [FileExistsError] and ranks 1 and 2 never get past the
    broadcast of the timestamp; they derive no path. *)
Lemma stale_log_dir_stalls_the_group :
  map snd (launch (λ l, main_run_identity sample_log_id (l_args l))
                  (sample_group stale_fs))
  = [Raise FileExistsError; Stall; Stall].
Proof. reflexivity. Qed.

Lemma log_dir_created_at_root_only_witness :
  (∃ p, launch (λ l, main_run_identity sample_log_id (l_args l))
               (sample_group readonly_fs) !! 1
        = Some (p, Stall) ∧ p_trace p = [EvBcastObj 0]) ∧
  (∃ p, launch (λ l, main_run_identity sample_log_id (l_args l))
               (sample_group fresh_fs) !! 1
        = Some (p, Ret (PyStr "2018-11-03_10-00-00",
                        Some "/tmp/Pong/run_P2P_ActorCritic_FourConvLSTM_2018-11-03_10-00-00"))
        ∧ p_trace p = [EvBcastObj 0; EvBarrier]).
Proof.
  split.
  - refine (proj2 (proj1 (proj2 (log_dir_created_at_root_only sample_log_id
              (sample_local 4 "2018-11-03_10-00-00" readonly_fs
                            sample_heap_root)
              [sample_local 4 "2018-11-03_10-00-07" readonly_fs
                            sample_heap_host;
               sample_local 4 "2018-11-03_09-59-58" readonly_fs
                            sample_heap_device]
              0
              (sample_local 4 "2018-11-03_10-00-07" readonly_fs
                            sample_heap_host) _ eq_refl)) _)).
    + intros l' Hin. repeat (apply elem_of_cons in Hin as [->|Hin]);
        [reflexivity..|by apply elem_of_nil in Hin].
    + by right.
  - refine (proj2 (proj2 (proj2 (log_dir_created_at_root_only sample_log_id
              (sample_local 4 "2018-11-03_10-00-00" fresh_fs sample_heap_root)
              [sample_local 4 "2018-11-03_10-00-07" fresh_fs sample_heap_host;
               sample_local 4 "2018-11-03_09-59-58" fresh_fs
                            sample_heap_device]
              0
              (sample_local 4 "2018-11-03_10-00-07" fresh_fs sample_heap_host)
              _ eq_refl)) _ eq_refl)).
    + intros l' Hin. repeat (apply elem_of_cons in Hin as [->|Hin]);
        [reflexivity..|by apply elem_of_nil in Hin].
    + vm_compute. intros Hin.
      repeat (apply elem_of_cons in Hin as [Hin|Hin]; [discriminate|]).
      by apply elem_of_nil in Hin.
Defined.

(** ** [main], from the first line to the synchronised parameters *)

Section MainFacts.

Variable make_log_id_from_timestamp :
  string → string → string → string → string → string.
Variable Env : Type.
Variable HeadShapes : Type.
Variable make_env : Args → Z → M Peer Env.
Variable torch_manual_seed : Z → M Peer unit.
Variable get_head_shapes : Env → string → M Peer HeadShapes.
Variable make_network : Env → HeadShapes → Args → M Peer Network.

Local Abbreviation construct :=
  (main_construct Env HeadShapes make_env torch_manual_seed get_head_shapes
                  make_network).
Local Abbreviation main_of :=
  (main make_log_id_from_timestamp Env HeadShapes make_env torch_manual_seed
        get_head_shapes make_network).

Lemma main_at_root args net h ck ds :
  log_id_dir_of make_log_id_from_timestamp args ck ∉ ds →
  (∀ p, p_rank p = 0 → p_heap p = h →
        construct args (seed args) p = (p, Ret net)) →
  main_of args (mkPeer 0 h ck (mkFs ds true) [] [] [] [] [])
  = (mkPeer 0 h ck
       (mkFs (log_id_dir_of make_log_id_from_timestamp args ck :: ds) true)
       [log_id_dir_of make_log_id_from_timestamp args ck] []
       (MObj (PyStr ck) :: MBarrier
        :: map buf_msg (map h (parameters net)))
       ([EvBcastObj 0; EvBarrier]
        ++ map (λ m, EvBcastBuf m 0) (param_topology h net))
       [AsciiLogo; Line "0 variables synced"],
     Ret (mkStarted (PyStr ck)
            (Some (log_id_dir_of make_log_id_from_timestamp args ck))
            (seed args) (seed args) net)).
Proof.
  intros Hnew Hbuilt. unfold main. unfold bind at 1.
  rewrite run_identity_root_created by done.
  unfold bind at 1. cbn [gets fst snd p_rank]. unfold bind at 1.
  change (per_rank_seed args (Z.of_nat 0)) with (seed args).
  rewrite Hbuilt by done. unfold bind at 1.
  rewrite main_sync_params_root. simpl.
  unfold param_topology. by rewrite !map_map.
Qed.

Lemma main_at_other args net rk h ck f ts hs :
  rk ≠ 0 →
  (∀ p, p_rank p = rk → p_heap p = h →
        construct args (per_rank_seed args (Z.of_nat rk)) p = (p, Ret net)) →
  map (λ l, meta (h l)) (parameters net) = map meta hs →
  main_of args
       (mkPeer rk h ck f []
               (MObj (PyStr ts) :: MBarrier :: map buf_msg hs) [] [] [])
  = (mkPeer rk (synced_heap h (parameters net) (map t_data hs)) ck f [] []
            []
            ([EvBcastObj 0; EvBarrier]
             ++ map (λ m, EvBcastBuf m 0) (param_topology h net))
            [Line (pretty rk +:+ " variables synced")],
     Ret (mkStarted (PyStr ts)
            (Some (log_id_dir_of make_log_id_from_timestamp args ts))
            (seed args) (per_rank_seed args (Z.of_nat rk)) net)).
Proof.
  intros Hrk Hbuilt Htop. unfold main. unfold bind at 1. simpl.
  rewrite run_identity_other by done.
  unfold bind at 1. cbn [gets fst snd p_rank]. unfold bind at 1.
  rewrite Hbuilt by done. unfold bind at 1.
  rewrite <- (app_nil_r (map buf_msg hs)).
  rewrite main_sync_params_other by done. simpl.
  unfold param_topology. by rewrite !map_map.
Qed.

(** In a group that shares its configuration, on whose peers lines
    65-70 return networks of one parameter topology without a
    collective call of their own, and whose rank 0 can create the log
    directory, [main] reaches line 84 on every peer: with the timestamp
    and the log directory of rank 0, the seeds of lines 63-64, and the
    parameters of rank 0. *)
Theorem main_starts_every_peer (l0 : Local) (ls : list Local)
    (r : nat) (l : Local) :
  (∀ l', l' ∈ ls →
     l_args l' = l_args l0 ∧
     param_topology (l_heap l') (l_net l')
     = param_topology (l_heap l0) (l_net l0)) →
  (∀ r' l' p,
     (l0 :: ls) !! r' = Some l' → p_rank p = r' → p_heap p = l_heap l' →
     construct (l_args l') (per_rank_seed (l_args l') (Z.of_nat r')) p
     = (p, Ret (l_net l'))) →
  log_id_dir_of make_log_id_from_timestamp (l_args l0) (l_clock l0)
    ∉ dirs (l_fs l0) →
  writable (l_fs l0) = true →
  (l0 :: ls) !! r = Some l →
  ∃ p,
    launch (λ l, main_of (l_args l)) (l0 :: ls) !! r
    = Some (p, Ret (mkStarted
                      (PyStr (l_clock l0))
                      (Some (log_id_dir_of make_log_id_from_timestamp
                                           (l_args l0) (l_clock l0)))
                      (seed (l_args l0))
                      (per_rank_seed (l_args l0) (Z.of_nat r))
                      (l_net l))) ∧
    param_buffers (p_heap p) (l_net l)
    = param_buffers (l_heap l0) (l_net l0) ∧
    p_trace p
    = [EvBcastObj 0; EvBarrier]
      ++ map (λ m, EvBcastBuf m 0) (param_topology (l_heap l0) (l_net l0)) ∧
    p_inbox p = [].
Proof.
  intros Hshared Hbuilt Hnew Hrw Hl.
  assert (∃ ds, l_fs l0 = mkFs ds true ∧
                log_id_dir_of make_log_id_from_timestamp (l_args l0)
                              (l_clock l0) ∉ ds) as (ds & Hfs & Hds).
  { destruct (l_fs l0) as [ds w]. simpl in *. subst w. by exists ds. }
  assert (main_of (l_args l0) (boot 0 l0 [])
          = (mkPeer 0 (l_heap l0) (l_clock l0)
               (mkFs (log_id_dir_of make_log_id_from_timestamp (l_args l0)
                                    (l_clock l0) :: ds) true)
               [log_id_dir_of make_log_id_from_timestamp (l_args l0)
                              (l_clock l0)] []
               (MObj (PyStr (l_clock l0)) :: MBarrier
                :: map buf_msg (map (l_heap l0) (parameters (l_net l0))))
               ([EvBcastObj 0; EvBarrier]
                ++ map (λ m, EvBcastBuf m 0)
                       (param_topology (l_heap l0) (l_net l0)))
               [AsciiLogo; Line "0 variables synced"],
             Ret (mkStarted (PyStr (l_clock l0))
                    (Some (log_id_dir_of make_log_id_from_timestamp
                                         (l_args l0) (l_clock l0)))
                    (seed (l_args l0)) (seed (l_args l0)) (l_net l0))))
    as Hroot.
  { unfold boot. rewrite Hfs. apply main_at_root; [done|].
    intros p Hp Hh. by apply (Hbuilt 0 l0 p). }
  destruct r as [|i].
  - injection Hl as <-. eexists. rewrite launch_lookup_root, Hroot.
    by repeat split.
  - simpl in Hl. assert (l ∈ ls) as Hin by by eapply list_elem_of_lookup_2.
    destruct (Hshared l Hin) as [Hargs Htop].
    eexists. rewrite (launch_lookup_other _ l0 ls i l Hl), Hroot.
    cbn [fst p_sent]. unfold boot.
    rewrite (main_at_other (l_args l) (l_net l) (S i) (l_heap l) (l_clock l)
               (l_fs l) (l_clock l0)
               (map (l_heap l0) (parameters (l_net l0)))); [|done| |].
    + assert (map t_data (map (l_heap l0) (parameters (l_net l0)))
              = param_buffers (l_heap l0) (l_net l0)) as ->.
      { unfold param_buffers. by rewrite map_map. }
      rewrite Hargs. split; [done|]. simpl. split; [|by rewrite Htop].
      unfold param_buffers at 1.
      apply synced_heap_buffers; [apply parameters_NoDup|].
      unfold param_buffers. rewrite !length_map.
      apply (f_equal length) in Htop. unfold param_topology in Htop.
      by rewrite !length_map in Htop.
    + intros p Hp Hh. by apply (Hbuilt (S i) l p).
    + unfold param_topology in Htop. by rewrite Htop, map_map.
Qed.

End MainFacts.

(** * Further properties *)

(** ** Seeds of the environments *)

(** Every rank [r > 0] owns the [nb_env] seeds from [per_rank_seed r] on:
    the blocks of consecutive ranks follow one another without gap or
    overlap, while rank 1 starts where rank 0 does. *)
Theorem seed_blocks_tile (args : Args) (i j : Z) :
  (0 < nb_env args)%Z → (0 < i < j)%Z →
  per_rank_seed args (i + 1) = (per_rank_seed args i + nb_env args)%Z ∧
  (per_rank_seed args i + nb_env args ≤ per_rank_seed args j)%Z ∧
  per_rank_seed args 1 = per_rank_seed args 0.
Proof.
  intros He Hij. rewrite !per_rank_seed_other by lia.
  split; [lia|]. split; [nia|]. rewrite per_rank_seed_root. lia.
Qed.

Lemma seed_blocks_tile_witness :
  (0 < nb_env (sample_args 4))%Z ∧ (0 < 1 < 3)%Z ∧
  (per_rank_seed (sample_args 4) 1 + 4 ≤ per_rank_seed (sample_args 4) 3)%Z.
Proof.
  assert (0 < nb_env (sample_args 4))%Z as He by (simpl; lia).
  split; [exact He|]. split; [lia|].
  exact (proj1 (proj2 (seed_blocks_tile (sample_args 4) 1 3 He ltac:(lia)))).
Defined.

(** ** The GPU of a peer *)

Lemma select_gpu_list gs rank :
  gs ≠ [] →
  select_gpu (GpuList gs) rank = py_getitem gs (rank mod length gs).
Proof.
  intros Hgs. unfold select_gpu, py_mod.
  destruct (decide (length gs = 0)) as [Hlen|_]; [|done].
  by apply nil_length_inv in Hlen.
Qed.

(** [select_gpu] never raises [IndexError]: with a list of GPUs it
    raises [ZeroDivisionError] when the list is empty and otherwise
    returns the member at position [rank mod len]; a single integer is
    returned as it is. *)
Theorem select_gpu_total (gpu_id : GpuId) (rank : nat) :
  match gpu_id with
  | GpuInt g => select_gpu gpu_id rank = Val g
  | GpuList [] => select_gpu gpu_id rank = Err ZeroDivisionError
  | GpuList gs =>
      ∃ g, select_gpu gpu_id rank = Val g ∧
           gs !! (rank mod length gs) = Some g ∧ g ∈ gs ∧
           select_gpu gpu_id (rank + length gs) = Val g
  end.
Proof.
  destruct gpu_id as [g|[|g0 gs]]; [done..|].
  set (l := g0 :: gs).
  assert (l ≠ []) as Hl by done.
  assert (rank mod length l < length l) as Hlt.
  { apply Nat.mod_upper_bound. simpl. lia. }
  destruct (lookup_lt_is_Some_2 l _ Hlt) as [g Hg].
  exists g. rewrite !select_gpu_list by done. unfold py_getitem.
  assert ((rank + length l) mod length l = rank mod length l) as ->.
  { rewrite <- (Nat.mul_1_l (length l)) at 1.
    apply Nat.Div0.mod_add. }
  rewrite Hg. repeat split; try done. by eapply list_elem_of_lookup_2.
Qed.

Lemma count_mod k j n :
  0 < k → j < k →
  length (filter (λ r, r mod k = j) (seq 0 n))
  = n / k + (if decide (j < n mod k) then 1 else 0).
Proof.
  intros Hk Hj. induction n as [|n IH].
  - simpl. rewrite Nat.Div0.div_0_l, Nat.Div0.mod_0_l.
    by rewrite decide_False by lia.
  - rewrite seq_S, filter_app, length_app, IH. simpl.
    pose proof (Nat.div_mod_eq n k) as Hn.
    pose proof (Nat.mod_upper_bound n k ltac:(lia)) as Hm.
    destruct (decide (S (n mod k) = k)) as [Hwrap|Hstep].
    + assert (S n = k * S (n / k) + 0) as Hs by lia.
      assert (S n / k = S (n / k)) as ->.
      { symmetry. by apply (Nat.div_unique _ _ _ 0). }
      assert (S n mod k = 0) as ->.
      { symmetry. by apply (Nat.mod_unique _ _ (S (n / k))). }
      rewrite (decide_False (P := j < 0)) by lia.
      rewrite filter_cons, filter_nil.
      destruct (decide (n mod k = j)), (decide (j < n mod k)); simpl; lia.
    + assert (S n = k * (n / k) + S (n mod k)) as Hs by lia.
      assert (S n / k = n / k) as ->.
      { symmetry. apply (Nat.div_unique _ _ _ (S (n mod k))); lia. }
      assert (S n mod k = S (n mod k)) as ->.
      { symmetry. apply (Nat.mod_unique _ _ (n / k)); lia. }
      rewrite filter_cons, filter_nil.
      destruct (decide (n mod k = j)), (decide (j < n mod k)),
        (decide (j < S (n mod k))); simpl; lia.
Qed.

(** Line 103, "distribute evenly across gpus": among [n] peers, the GPU
    at position [j] of a list of [k] distinct GPUs gets [n / k] peers,
    and one more when [j < n mod k]; so no GPU gets two peers more than
    another. *)
Theorem gpus_evenly_loaded (gs : list Z) (n j : nat) (g : Z) :
  NoDup gs → gs !! j = Some g →
  length (peers_on_gpu (GpuList gs) n g)
  = n / length gs + (if decide (j < n mod length gs) then 1 else 0).
Proof.
  intros Hnd Hj.
  assert (j < length gs) as Hlt by by eapply lookup_lt_Some.
  assert (gs ≠ []) as Hgs by (intros ->; simpl in Hlt; lia).
  rewrite <- (count_mod (length gs) j n) by lia.
  unfold peers_on_gpu. f_equal. apply list_filter_iff. intros r.
  rewrite select_gpu_list by done. unfold py_getitem.
  assert (r mod length gs < length gs) as Hr
    by (apply Nat.mod_upper_bound; lia).
  destruct (lookup_lt_is_Some_2 gs _ Hr) as [g' Hg']. rewrite Hg'. split.
  - intros [= ->]. by eapply NoDup_lookup.
  - intros Heq. rewrite Heq in Hg'. congruence.
Qed.

Lemma gpus_evenly_loaded_witness :
  NoDup [0; 1; 3]%Z ∧ [0; 1; 3]%Z !! 1 = Some 1%Z ∧
  length (peers_on_gpu (GpuList [0; 1; 3]%Z) 8 1%Z) = 3.
Proof.
  assert (NoDup [0; 1; 3]%Z) as Hnd.
  { repeat constructor; intros Hin;
      repeat (apply elem_of_cons in Hin as [Hin|Hin]; [discriminate|]);
      by apply elem_of_nil in Hin. }
  split; [exact Hnd|]. split; [reflexivity|].
  exact (gpus_evenly_loaded [0; 1; 3]%Z 8 1 1%Z Hnd eq_refl).
Defined.

(** ** Strings *)

Lemma append_cons x (a b : string) : String x a +:+ b = String x (a +:+ b).
Proof. reflexivity. Qed.

Lemma append_assoc (a b c : string) : (a +:+ b) +:+ c = a +:+ (b +:+ c).
Proof.
  induction a as [|x a IH]; [done|]. rewrite !append_cons. by rewrite IH.
Qed.

Lemma append_length (a b : string) :
  String.length (a +:+ b) = String.length a + String.length b.
Proof.
  induction a as [|x a IH]; [done|]. rewrite append_cons. simpl.
  by rewrite IH.
Qed.

Lemma append_cancel_l (a b c : string) : a +:+ b = a +:+ c → b = c.
Proof.
  induction a as [|x a IH]; [done|]. rewrite !append_cons.
  intros [= H]. auto.
Qed.

Lemma append_cancel_r (a b c : string) : a +:+ c = b +:+ c → a = b.
Proof.
  revert b. induction a as [|x a IH]; intros [|y b] Heq.
  - done.
  - apply (f_equal String.length) in Heq.
    rewrite !append_length in Heq. simpl in Heq. lia.
  - apply (f_equal String.length) in Heq.
    rewrite !append_length in Heq. simpl in Heq. lia.
  - rewrite !append_cons in Heq. injection Heq as -> Heq.
    f_equal. by apply IH.
Qed.

(** ** The files of a peer *)

Lemma join_relative (dir name : string) :
  starts_with_sep name = false →
  ∃ glue, os_path_join dir [name] = dir +:+ glue +:+ name ∧
          ∀ name', starts_with_sep name' = false →
                   os_path_join dir [name'] = dir +:+ glue +:+ name'.
Proof.
  intros Hrel. unfold os_path_join. simpl. unfold join_step.
  destruct (bool_decide (dir = "") || ends_with_sep dir) eqn:Hglue.
  - exists "". rewrite Hrel. split; [done|]. by intros name' ->.
  - exists "/". rewrite Hrel. split; [done|]. by intros name' ->.
Qed.

(** Lines 87-95: distinct peers never share a logger name, a log file or
    a summary directory, a log file is never the summary directory of
    any peer, and all of them lie under the shared log directory. *)
Theorem peer_files_distinct (log_id_dir : string) (r1 r2 : nat) :
  r1 ≠ r2 →
  logger_name r1 ≠ logger_name r2 ∧
  train_log_path log_id_dir r1 ≠ train_log_path log_id_dir r2 ∧
  summary_dir log_id_dir r1 ≠ summary_dir log_id_dir r2 ∧
  train_log_path log_id_dir r1 ≠ summary_dir log_id_dir r2 ∧
  (∃ rest, train_log_path log_id_dir r1 = log_id_dir +:+ rest) ∧
  (∃ rest, summary_dir log_id_dir r1 = log_id_dir +:+ rest).
Proof.
  intros Hne. unfold logger_name, train_log_path, summary_dir.
  destruct (join_relative log_id_dir
              ("train_log_rank" +:+ pretty r1 +:+ ".txt") eq_refl)
    as (glue & Hlog & Hglue).
  rewrite Hlog.
  rewrite (Hglue ("train_log_rank" +:+ pretty r2 +:+ ".txt") eq_refl).
  rewrite (Hglue ("rank" +:+ pretty r1) eq_refl).
  rewrite (Hglue ("rank" +:+ pretty r2) eq_refl).
  repeat split.
  - intros Heq. apply append_cancel_l in Heq. by apply pretty_nat_inj in Heq.
  - intros Heq. do 3 apply append_cancel_l in Heq.
    apply append_cancel_r in Heq. by apply pretty_nat_inj in Heq.
  - intros Heq. do 3 apply append_cancel_l in Heq.
    by apply pretty_nat_inj in Heq.
  - intros Heq. do 2 apply append_cancel_l in Heq. discriminate.
  - by eexists.
  - by eexists.
Qed.

Lemma peer_files_distinct_witness :
  0 ≠ 1 ∧
  train_log_path "/tmp/Pong/run" 0 ≠ train_log_path "/tmp/Pong/run" 1.
Proof.
  split; [lia|].
  exact (proj1 (proj2 (peer_files_distinct "/tmp/Pong/run" 0 1
                         ltac:(lia)))).
Defined.

(** ** The log directory *)

Lemma join_step_relative (path b : string) :
  starts_with_sep b = false →
  join_step path b = path +:+ glue path +:+ b.
Proof.
  intros Hb. unfold join_step, glue. rewrite Hb.
  by destruct (bool_decide (path = "") || ends_with_sep path).
Qed.

Section LogDirectory.

Variable make_log_id_from_timestamp :
  string → string → string → string → string → string.

(** Lines 44-47: when neither [args.env_id] nor the log id starts with
    a slash, the path of the log directory is [args.log_dir],
    [args.env_id] and the log id, as they are, with a slash between two
    of them unless what stands before ends with one; nothing is
    normalised, so the path starts with [args.log_dir] as a text. An
    [args.env_id] that starts with a slash makes [os.path.join] drop
    [args.log_dir], and a log id that starts with one is the whole
    result. *)
Theorem log_id_dir_placement (args : Args) (timestamp : string) :
  let log_id :=
    make_log_id_from_timestamp
      (tag args) (mode_name args) (agent args)
      (vision_network args +:+ network_body args) timestamp in
  let dir := log_id_dir_of make_log_id_from_timestamp args timestamp in
  (starts_with_sep (env_id args) = false →
   starts_with_sep log_id = false →
   let under := log_dir args +:+ glue (log_dir args) +:+ env_id args in
   dir = under +:+ glue under +:+ log_id) ∧
  (starts_with_sep (env_id args) = true →
   starts_with_sep log_id = false →
   dir = env_id args +:+ glue (env_id args) +:+ log_id) ∧
  (starts_with_sep log_id = true → dir = log_id).
Proof.
  intros log_id dir. subst dir. unfold log_id_dir_of, os_path_join.
  cbn [foldl]. fold log_id. split; [|split].
  - intros Henv Hid. by rewrite !join_step_relative.
  - intros Henv Hid. rewrite (join_step_relative _ log_id) by done.
    unfold join_step at 1 2. by rewrite Henv.
  - intros Hid. unfold join_step at 1. by rewrite Hid.
Qed.

End LogDirectory.

Lemma log_id_dir_placement_witness :
  starts_with_sep "../../etc" = false ∧
  log_id_dir_of sample_log_id
    (mkArgs "run" "P2P" "A" "V" "B" "/tmp/logs" "../../etc" 42 4) "2018"
  = "/tmp/logs/../../etc/run_P2P_A_VB_2018".
Proof.
  split; [reflexivity|].
  exact (proj1 (log_id_dir_placement sample_log_id
                  (mkArgs "run" "P2P" "A" "V" "B" "/tmp/logs" "../../etc"
                          42 4) "2018")
               eq_refl eq_refl).
Defined.

(** ** The script entry *)

(** Lines 173-176: whatever the command line says, [main] is given the
    mode name ['P2P']; with [--debug] it is given three environments per
    peer and the log directory [/tmp/], so that a peer of rank [r > 0]
    gets the seed [args.seed + 3 * (r - 1)]; everything else, and
    without [--debug] these two as well, is passed through. *)
Theorem entry_args_overrides (ns : Namespace) (r : Z) :
  (r > 0)%Z →
  let args := entry_args ns in
  mode_name args = "P2P" ∧
  (ns_debug ns = true →
   nb_env args = 3%Z ∧ log_dir args = "/tmp/" ∧
   per_rank_seed args r = (seed (ns_args ns) + 3 * (r - 1))%Z) ∧
  (ns_debug ns = false →
   nb_env args = nb_env (ns_args ns) ∧ log_dir args = log_dir (ns_args ns) ∧
   per_rank_seed args r = per_rank_seed (ns_args ns) r) ∧
  (tag args, agent args, vision_network args, network_body args,
   env_id args, seed args)
  = (tag (ns_args ns), agent (ns_args ns), vision_network (ns_args ns),
     network_body (ns_args ns), env_id (ns_args ns), seed (ns_args ns)) ∧
  entry_args (mkNamespace args (ns_gpu_id ns) (ns_debug ns)) = args.
Proof.
  intros Hr args. subst args. unfold entry_args.
  destruct ns as [a g [|]]; simpl; repeat split; try done.
  by rewrite per_rank_seed_other by lia.
Qed.

Lemma entry_args_overrides_witness :
  (2 > 0)%Z ∧
  per_rank_seed (entry_args (mkNamespace (sample_args 32) (GpuInt 0) true)) 2
  = 45%Z.
Proof.
  split; [lia|].
  exact (proj2 (proj2 (proj1 (proj2
           (entry_args_overrides
              (mkNamespace (sample_args 32) (GpuInt 0) true) 2
              ltac:(lia))) eq_refl))).
Defined.

(** ** [internal_space] *)

(** [internal_space] asks [new_internals] for host memory, fails as it
    fails (with [NotImplementedError] on the base class), and otherwise
    lists the shape of each internal under its key, as many entries and
    in the same order as [new_internals] has them. *)
Theorem internal_space_shapes
    (new_internals : Device → checked (list (string * Tensor))) :
  internal_space abstract_new_internals = Err NotImplementedError ∧
  (∀ e, new_internals cpu = Err e → internal_space new_internals = Err e) ∧
  (∀ d, new_internals cpu = Val d → NoDup (map fst d) →
        internal_space new_internals
        = Val (map (λ kt : string * Tensor, (kt.1, t_shape kt.2)) d)).
Proof.
  split; [done|]. split.
  - intros e He. unfold internal_space. by rewrite He.
  - intros d Hd Hnd. unfold internal_space. rewrite Hd. simpl. f_equal.
    by rewrite (od_build fst (λ kt, t_shape kt.2) [] d).
Qed.

Lemma internal_space_shapes_witness :
  internal_space
    (λ _, Val [("hx", sample_tensor cpu 0 x00);
               ("cx", sample_tensor cpu 1 x00)])
  = Val [("hx", [2; 1]); ("cx", [1])].
Proof.
  refine (proj2 (proj2 (internal_space_shapes
            (λ _, Val [("hx", sample_tensor cpu 0 x00);
                       ("cx", sample_tensor cpu 1 x00)])))
          _ eq_refl _).
  repeat constructor; intros Hin;
    repeat (apply elem_of_cons in Hin as [Hin|Hin]; [discriminate|]);
    by apply elem_of_nil in Hin.
Defined.

(** ** The initial synchronisation when the peers disagree *)

Lemma size_of_view_write h a d a' :
  size_of (array_value (view_write h a d) a') = size_of (array_value h a').
Proof. unfold size_of. by rewrite meta_array_value_view_write. Qed.

Lemma comm_Bcast_received v t rk h ck f md rest snt tr out :
  rk ≠ 0 →
  size_of (array_value h v) = size_of t →
  comm_Bcast v 0 (mkPeer rk h ck f md (buf_msg t :: rest) snt tr out)
  = (mkPeer rk (view_write h v (t_data t)) ck f md rest snt
            (tr ++ [EvBcastBuf (meta (array_value h v)) 0]) out,
     Ret (refill v (t_data t))).
Proof.
  intros Hrk Hsize.
  unfold comm_Bcast, bind, gets, called, modify, recv. simpl.
  rewrite decide_False by done. simpl.
  rewrite decide_True; [apply fill_run|]. symmetry. exact Hsize.
Qed.

Lemma comm_Bcast_starved v rk h ck f md snt tr out :
  rk ≠ 0 →
  comm_Bcast v 0 (mkPeer rk h ck f md [] snt tr out)
  = (mkPeer rk h ck f md [] snt
            (tr ++ [EvBcastBuf (meta (array_value h v)) 0]) out,
     Stall).
Proof.
  intros Hrk. unfold comm_Bcast, bind, gets, called, modify, recv. simpl.
  by rewrite decide_False by done.
Qed.

(** The receiving loop, as far as the contributions fit. *)
Lemma recv_prefix vs1 vs2 ts1 rk h ck f md rest snt tr out :
  rk ≠ 0 →
  Forall2 (λ v t, size_of (array_value h v) = size_of t) vs1 ts1 →
  mapM (λ v, comm_Bcast v 0) (vs1 ++ vs2)
       (mkPeer rk h ck f md (map buf_msg ts1 ++ rest) snt tr out)
  = match mapM (λ v, comm_Bcast v 0) vs2
            (mkPeer rk (fill_all h (zip vs1 (map t_data ts1))) ck f md rest
                    snt
                    (tr ++ map (λ v, EvBcastBuf (meta (array_value h v)) 0)
                               vs1)
                    out) with
    | (p', Ret ys) => (p', Ret (zip_with refill vs1 (map t_data ts1) ++ ys))
    | (p', Raise e) => (p', Raise e)
    | (p', Stall) => (p', Stall)
    end.
Proof.
  intros Hrk. revert ts1 h tr.
  induction vs1 as [|v vs1 IH]; intros ts1 h tr Hfit.
  - apply Forall2_nil_inv_l in Hfit as ->. simpl. rewrite app_nil_r.
    by destruct (mapM _ vs2 _) as [p' [ys| |]].
  - apply Forall2_cons_inv_l in Hfit as (t & ts' & Hvt & Hfit & ->).
    cbn [app map mapM]. unfold bind at 1.
    rewrite comm_Bcast_received by done.
    unfold bind at 1. rewrite IH.
    + cbn [zip zip_with fill_all foldl fst snd]. rewrite <- app_assoc.
      cbn [app].
      rewrite (map_ext
                 (λ a, EvBcastBuf
                         (meta (array_value (view_write h v (t_data t)) a))
                         0)
                 (λ a, EvBcastBuf (meta (array_value h a)) 0)).
      * by destruct (mapM _ vs2 _) as [p' [ys| |]].
      * intros a. by rewrite meta_array_value_view_write.
    + eapply Forall2_impl; [exact Hfit|]. intros a t' Ha.
      by rewrite size_of_view_write.
Qed.

Lemma sized_arrays h ps ts :
  map (λ l, size_of (h l)) ps = map size_of ts →
  Forall2 (λ v t, size_of (array_value h v) = size_of t)
          (map (as_array h) ps) ts.
Proof.
  revert ts. induction ps as [|l ps IH]; intros [|t ts] Heq;
    try discriminate; [constructor|].
  simpl in Heq. apply (f_equal head) in Heq as Hhd.
  apply (f_equal tail) in Heq as Htl. simpl in *.
  constructor; [|by apply IH].
  unfold size_of in *. rewrite meta_as_array. congruence.
Qed.

(** Lines 77-84 when the byte counts agree. *)
Lemma main_sync_params_sized net ts rk h ck f md rest snt tr out :
  rk ≠ 0 →
  map (λ l, size_of (h l)) (parameters net) = map size_of ts →
  main_sync_params net
    (mkPeer rk h ck f md (map buf_msg ts ++ rest) snt tr out)
  = (mkPeer rk (synced_heap h (parameters net) (map t_data ts))
            ck f md rest snt
            (tr ++ map (λ v, EvBcastBuf (meta (h v)) 0) (parameters net))
            (out ++ [Line (pretty rk +:+ " variables synced")]),
     Ret tt).
Proof.
  intros Hrk Hsize. unfold main_sync_params. unfold bind at 1. simpl.
  rewrite decide_False by done.
  unfold bind at 1. rewrite mapM_detach. simpl.
  unfold bind at 1.
  rewrite <- (app_nil_r (map (as_array h) (parameters net))).
  rewrite recv_prefix; [|done|by apply sized_arrays].
  cbn [mapM]. unfold ret at 1. rewrite !app_nil_r.
  unfold bind at 1. rewrite copy_all_run.
  - unfold print, modify. simpl. unfold synced_heap, with_stdout. simpl.
    rewrite map_map.
    rewrite (map_ext
               (λ l, EvBcastBuf (meta (array_value h (as_array h l))) 0)
               (λ l, EvBcastBuf (meta (h l)) 0)); [done|].
    intros l. by rewrite meta_as_array.
  - apply refilled_fit. intros l. apply meta_fill_all.
Qed.

(** Lines 77-84 when the contributions stop fitting at the parameter
    [v]: the loop of lines 80-81 ends there and lines 82-83 are not
    reached. *)
Lemma main_sync_params_stops net ps1 v ps2 ts1 rk h ck f md rest snt tr out :
  rk ≠ 0 →
  parameters net = ps1 ++ v :: ps2 →
  map (λ l, size_of (h l)) ps1 = map size_of ts1 →
  ∀ p' o,
    comm_Bcast (as_array h v) 0
      (mkPeer rk (fill_all h (zip (map (as_array h) ps1) (map t_data ts1)))
              ck f md rest snt
              (tr ++ map (λ v, EvBcastBuf (meta (array_value h v)) 0)
                         (map (as_array h) ps1))
              out)
    = (p', o) →
    (∀ x, o ≠ Ret x) →
    ∃ o', main_sync_params net
            (mkPeer rk h ck f md (map buf_msg ts1 ++ rest) snt tr out)
          = (p', o') ∧
          match o, o' with
          | Raise e, Raise e' => e = e'
          | Stall, Stall => True
          | _, _ => False
          end.
Proof.
  intros Hrk Hps Hsize p' o Hv Hfail.
  unfold main_sync_params. unfold bind at 1. simpl.
  rewrite decide_False by done.
  unfold bind at 1. rewrite mapM_detach. simpl.
  rewrite Hps, map_app. cbn [map].
  unfold bind at 1.
  rewrite recv_prefix; [|done|by apply sized_arrays].
  destruct o as [x|e|].
  - by destruct (Hfail x).
  - rewrite (mapM_head_raises (λ a, comm_Bcast a 0) (as_array h v)
               _ _ _ _ Hv).
    by exists (Raise e).
  - rewrite (mapM_head_stalls (λ a, comm_Bcast a 0) (as_array h v)
               _ _ _ Hv).
    by exists Stall.
Qed.

Lemma fill_all_prefix_frame h ps ds l :
  l ∉ ps → fill_all h (zip (map (as_array h) ps) ds) l = h l.
Proof.
  intros Hl. rewrite zip_arrays. apply fill_all_frame.
  intros Hin. apply Hl.
  apply list_elem_of_fmap in Hin as ([l' d] & -> & Hin).
  by apply elem_of_zip_l in Hin.
Qed.

(** Lines 77-84 compare byte counts only. A peer of rank [r > 0] whose
    parameters have, position by position, the byte counts of the first
    parameters of rank 0 returns with the contents of those in its own
    parameters, whatever their shapes and dtypes, which it keeps; what
    rank 0 broadcast beyond them is left unconsumed. *)
Theorem initial_sync_checks_sizes_only (l0 : Local) (ls : list Local)
    (i : nat) (l : Local) (qs1 qs2 : list loc) :
  ls !! i = Some l →
  parameters (l_net l0) = qs1 ++ qs2 →
  map (λ t, size_of (l_heap l t)) (parameters (l_net l))
  = map (λ t, size_of (l_heap l0 t)) qs1 →
  ∃ p, launch (λ l, main_sync_params (l_net l)) (l0 :: ls) !! S i
       = Some (p, Ret tt) ∧
       param_buffers (p_heap p) (l_net l)
       = map (λ t, t_data (l_heap l0 t)) qs1 ∧
       param_topology (p_heap p) (l_net l)
       = param_topology (l_heap l) (l_net l) ∧
       p_inbox p = map (λ t, buf_msg (l_heap l0 t)) qs2.
Proof.
  intros Hl Hq Hsize. eexists.
  rewrite (launch_lookup_other _ l0 ls i l Hl), sync_root_result.
  unfold boot. cbn [fst p_sent]. rewrite Hq, map_app, map_app.
  rewrite (main_sync_params_sized (l_net l) (map (l_heap l0) qs1));
    [|done|by rewrite map_map].
  split; [done|]. cbn [p_heap p_inbox]. split; [|split].
  - rewrite <- (map_map (l_heap l0) t_data qs1). unfold param_buffers.
    apply synced_heap_buffers; [apply parameters_NoDup|].
    apply (f_equal length) in Hsize. rewrite !length_map in Hsize.
    by rewrite !length_map.
  - unfold param_topology. apply map_ext. intros t.
    apply meta_synced_heap.
  - by rewrite map_map.
Qed.

Lemma fill_all_device h0 lds h l :
  t_device (h0 l) = cuda →
  fill_all h (map (λ ld : loc * list byte, (as_array h0 ld.1, ld.2)) lds) l
  = h l.
Proof.
  intros Hdev. revert h. induction lds as [|[l0 d0] lds IH]; intros h; [done|].
  simpl. rewrite IH. apply view_write_other.
  intros Hv. apply as_array_view in Hv as Heq. subst l0.
  unfold as_array in Hv. by rewrite Hdev in Hv.
Qed.

(** With what rank 0 broadcasts in lines 73-76, a peer of rank [r > 0]
    that has a parameter [v] more than rank 0, the ones before it of
    the byte counts of those of rank 0, does not get past line 81: it
    has made one [Bcast] call per parameter up to [v] and is blocked in
    the last. [v] and the parameters after it are as they were, no
    tensor in device memory has changed, since lines 82-83 are not
    reached, and nothing is printed. *)
Theorem initial_sync_starved (l0 : Local) (ls : list Local)
    (i : nat) (l : Local) (ps1 ps2 : list loc) (v : loc) :
  ls !! i = Some l →
  parameters (l_net l) = ps1 ++ v :: ps2 →
  map (λ t, size_of (l_heap l t)) ps1
  = map (λ t, size_of (l_heap l0 t)) (parameters (l_net l0)) →
  ∃ p, launch (λ l, main_sync_params (l_net l)) (l0 :: ls) !! S i
       = Some (p, Stall) ∧
       p_trace p
       = map (λ t, EvBcastBuf (meta (l_heap l t)) 0) (ps1 ++ [v]) ∧
       (∀ t, t ∉ ps1 → p_heap p t = l_heap l t) ∧
       (∀ t, t_device (l_heap l t) = cuda → p_heap p t = l_heap l t) ∧
       p_stdout p = [].
Proof.
  intros Hl Hp Hsize.
  assert (S i ≠ 0) as Hrk by lia.
  rewrite (launch_lookup_other _ l0 ls i l Hl), sync_root_result.
  unfold boot. cbn [fst p_sent].
  assert (map (λ t, size_of (l_heap l t)) ps1
          = map size_of (map (l_heap l0) (parameters (l_net l0)))) as Hsize'
    by by rewrite map_map.
  rewrite <- (app_nil_r (map buf_msg _)).
  edestruct (main_sync_params_stops (l_net l) ps1 v ps2
               (map (l_heap l0) (parameters (l_net l0)))
               (S i) (l_heap l) (l_clock l) (l_fs l)
               [] [] [] [] [] Hrk Hp Hsize')
    as (o' & Hrun & Ho');
    [apply comm_Bcast_starved; exact Hrk|done|].
  destruct o' as [x|e|]; try done.
  eexists. split; [by rewrite Hrun|]. cbn [p_heap p_stdout p_trace].
  split; [|split; [|split; [|done]]].
  - rewrite map_app, map_map. cbn [app map]. f_equal.
    + apply map_ext. intros t. by rewrite meta_as_array.
    + do 2 f_equal.
      destruct (as_array (l_heap l) v) as [v'|t] eqn:Hv; simpl.
      * apply as_array_view in Hv as ->. by rewrite meta_fill_all.
      * rewrite <- (meta_as_array (l_heap l) v). by rewrite Hv.
  - intros t Ht. by apply fill_all_prefix_frame.
  - intros t Ht. rewrite zip_arrays. by apply fill_all_device.
Qed.

(** ** [sync] on both sides of the broadcast *)

Lemma lookup_map {A B} (f : A → B) (l : list A) (i : nat) :
  map f l !! i = f <$> l !! i.
Proof.
  revert i. induction l as [|x l IH]; intros [|i]; simpl; done.
Qed.


Lemma sized_fitting h ts hs rest :
  map (λ t, size_of (h t)) ts = map size_of hs →
  fitting h ts (map payload_of hs ++ rest).
Proof.
  revert hs. induction ts as [|t ts IH]; intros [|x hs] Heq;
    try discriminate; [done|].
  simpl in Heq. injection Heq as Hx Heq. simpl. split; [|by apply IH].
  unfold fits, size_of in *. simpl. by rewrite Hx.
Qed.

Lemma arriving_app_short h id ib ts1 ts2 :
  length ib ≤ length ts1 →
  arriving h id ib (ts1 ++ ts2) = arriving h id ib ts1.
Proof.
  revert h id ib. induction ts1 as [|t ts1 IH]; intros h id [|pl ib] Hlen;
    simpl in *; try lia; try done.
  - by destruct ts2.
  - apply IH. lia.
Qed.


(** One blocking [sync] on every peer of a group. A peer that is not the
    source, whose state dictionary lists distinct tensors with the byte
    counts of the source's, position by position, returns with the
    contents of the source's tensors in its own, has consumed exactly
    what the source sent, and has written to no other tensor; shapes
    and dtypes are not compared and stay as they were. *)
Theorem sync_group_converges (net_of : Dist → Network) (grp : Group)
    (source : Dist) (others : list Dist) (i : nat) (s : Dist) :
  dist_wf source → others !! i = Some s → dist_wf s →
  d_rank source ∈ grp → d_rank s ∈ grp →
  d_rank s ≠ d_rank source →
  map (λ t, size_of (d_heap s t)) (values (state_dict (net_of s)))
  = map (λ t, size_of (d_heap source t))
        (values (state_dict (net_of source))) →
  NoDup (values (state_dict (net_of s))) →
  ∃ s' vs,
    (group_sync net_of grp None source others).2 !! i = Some (s', Ret vs) ∧
    length vs = length (state_dict (net_of s)) ∧
    map (λ t, t_data (d_heap s' t)) (values (state_dict (net_of s)))
    = map (λ t, t_data (d_heap source t))
          (values (state_dict (net_of source))) ∧
    (∀ t, t ∉ values (state_dict (net_of s)) → d_heap s' t = d_heap s t) ∧
    same_metas (d_heap s) (d_heap s') ∧
    d_inbox s' = [] ∧ d_pending s' = d_pending s.
Proof.
  intros Hwf0 Hs Hwf Hrk0 Hrk Hne Hsize Hnd.
  unfold group_sync. cbn [snd fst]. rewrite lookup_map, Hs.
  cbn [fmap option_fmap option_map].
  rewrite sync_sent, decide_True by done.
  destruct s as [rk h ib snt iss pend wtd nx]. unfold with_contributions.
  cbn [d_rank d_heap d_sent d_issued d_pending d_waited d_next] in *.
  set (ts := values (state_dict (net_of (mkDist rk h ib snt iss pend wtd nx))))
    in *.
  set (hs := map (d_heap source) (values (state_dict (net_of source)))).
  assert (map (λ t, payload_of (d_heap source t))
              (values (state_dict (net_of source)))
          = map payload_of hs) as -> by (subst hs; by rewrite map_map).
  assert (map (λ t, size_of (h t)) ts = map size_of hs) as Hsize'
    by (subst hs; by rewrite map_map).
  assert (length hs = length ts) as Hlen.
  { apply (f_equal length) in Hsize'. by rewrite !length_map in Hsize'. }
  assert (sync (net_of (mkDist rk h ib snt iss pend wtd nx))
               (d_rank source) grp None
               (mkDist rk h (map payload_of hs) snt iss pend wtd nx)
          = (mkDist rk
               (write_all (arriving h nx (map payload_of hs) ts)
                          (zip ts (map pl_data (map payload_of hs))))
               (drop (length ts) (map payload_of hs)) snt
               (iss ++ issues_from h (d_rank source) grp nx ts)
               pend (wtd ++ seq nx (length ts)) (nx + length ts),
             Ret (map (λ _, VBool true) ts))) as ->.
  { rewrite sync_blocking_joined.
    - fold ts. by rewrite !decide_False by done.
    - split; [done|]. split; [done|]. cbn [d_heap d_inbox]. fold ts.
      rewrite <- (app_nil_r (map payload_of hs)). by apply sized_fitting.
    - exact Hwf.
    - fold ts. rewrite length_map. lia. }
  eexists _, _. split; [done|]. cbn [d_heap d_inbox d_pending].
  assert (map pl_data (map payload_of hs) = map t_data hs) as ->
    by by rewrite map_map.
  split; [rewrite length_map; subst ts; apply length_values|].
  split; [|split].
  - subst hs. rewrite <- (map_map (d_heap source) t_data).
    apply map_by_zip; [by rewrite !length_map in *|].
    intros l d Hin.
    rewrite (write_all_at _ _ l d); [done| |done].
    by apply zip_fst_NoDup.
  - intros t Ht. rewrite write_all_frame.
    + by apply arriving_frame.
    + intros Hin. apply Ht.
      apply list_elem_of_fmap in Hin as ([l' d] & -> & Hin).
      by apply elem_of_zip_l in Hin.
  - split.
    + intros t. by rewrite meta_write_all, meta_arriving.
    + split; [|done]. apply drop_ge. rewrite length_map. lia.
Qed.

(** A blocking [sync] away from the source, when the source takes part
    in the broadcasts of the tensors [ts1] only: the call does not get
    past the [wait()] for the next tensor. By then every broadcast has
    been queued, the tensors of [ts1] hold what the source sent, and
    all others are as they were. *)
Theorem sync_stops_when_starved (net : Network) (src : nat) (grp : Group)
    (ts1 ts2 : list loc) (t : loc) (s : Dist) :
  matched net src grp s → dist_wf s → d_rank s ≠ src →
  values (state_dict net) = ts1 ++ t :: ts2 →
  length (d_inbox s) = length ts1 →
  ∃ s',
    sync net src grp None s
    = (s', match gives_up c10d with
           | None => Stall
           | Some e => Raise e
           end) ∧
    (NoDup ts1 →
     map (λ l, t_data (d_heap s' l)) ts1 = map pl_data (d_inbox s)) ∧
    (∀ l, l ∉ ts1 → d_heap s' l = d_heap s l) ∧
    length (issued_since s s') = length (state_dict net) ∧
    waited_since s s' = seq (d_next s) (S (length ts1)).
Proof.
  intros Hmatched Hwf Hrk Hts Hlen.
  destruct s as [rk h ib snt iss pend wtd nx].
  cbn [d_rank d_heap d_inbox d_next] in *.
  rewrite (sync_blocking_starved net src grp ts1 t ts2) by done.
  eexists. split; [done|]. cbn [d_heap]. rewrite decide_False by done.
  rewrite arriving_app_short by lia.
  split; [|split; [|split]].
  - intros Hnd. apply map_by_zip; [by rewrite length_map|].
    intros l d Hin.
    rewrite (write_all_at _ _ l d); [done| |done].
    by apply zip_fst_NoDup.
  - intros l Hl. rewrite write_all_frame.
    + by apply arriving_frame.
    + intros Hin. apply Hl.
      apply list_elem_of_fmap in Hin as ([l' d] & -> & Hin).
      by apply elem_of_zip_l in Hin.
  - unfold issued_since. cbn [d_issued].
    by rewrite drop_app_length, issues_from_length, <- Hts, length_values.
  - unfold waited_since. cbn [d_waited]. by rewrite drop_app_length.
Qed.

(** [sync] is for the members of the group and a source among them. On
    a peer that is not in the group every [dist.broadcast] returns
    [None]: the call that does not wait returns these, one per entry of
    the state dictionary, and the blocking one raises [AttributeError]
    at the first [wait()]. With a source that is not in the group the
    first [dist.broadcast] raises. In both cases nothing is queued, sent
    or written, and with an empty state dictionary the call returns the
    empty list. *)
Theorem sync_outside_the_group (net : Network) (src : nat) (grp : Group)
    (async_op : option bool) (s : Dist) :
  d_rank s ∉ grp ∨ src ∉ grp →
  (sync net src grp async_op s).1 = s ∧
  (d_rank s ∉ grp →
   (sync net src grp async_op s).2
   = if default false async_op
     then Ret (map (λ _, VNone) (values (state_dict net)))
     else match values (state_dict net) with
          | [] => Ret []
          | _ :: _ => Raise AttributeError
          end) ∧
  (d_rank s ∈ grp →
   (sync net src grp async_op s).2
   = match values (state_dict net) with
     | [] => Ret []
     | _ :: _ => Raise (invalid_root c10d)
     end).
Proof.
  intros Hout. destruct (decide (d_rank s ∈ grp)) as [Hin|Hnin].
  - destruct Hout as [?|Hsrc]; [done|].
    rewrite sync_invalid_root by done. by repeat split.
  - rewrite sync_outside by done. by repeat split.
Qed.

(** ** What the initial synchronisation leaves alone *)

(** The synchronisation in [main] writes to parameters only, and at
    rank 0 to nothing: on every peer a tensor that [parameters()] does
    not yield, like a running statistic, is what it was before. *)
Theorem initial_sync_spares_buffers (l0 : Local) (ls : list Local)
    (r : nat) (l : Local) :
  (∀ l', l' ∈ ls →
     param_topology (l_heap l') (l_net l')
     = param_topology (l_heap l0) (l_net l0)) →
  (l0 :: ls) !! r = Some l →
  ∃ p, launch (λ l, main_sync_params (l_net l)) (l0 :: ls) !! r
       = Some (p, Ret tt) ∧
       (∀ t, t ∉ parameters (l_net l) → p_heap p t = l_heap l t) ∧
       (r = 0 → p_heap p = l_heap l).
Proof.
  intros Htop Hl. destruct r as [|i].
  - injection Hl as <-. eexists. rewrite launch_lookup_root.
    rewrite sync_root_result. by repeat split.
  - simpl in Hl. assert (l ∈ ls) as Hin by by eapply list_elem_of_lookup_2.
    eexists. rewrite (launch_lookup_other _ l0 ls i l Hl).
    rewrite (sync_other_result l0 l i (Htop l Hin)). cbn [p_heap].
    split; [done|]. split; [|done].
    intros t Ht. by apply synced_heap_frame.
Qed.

(** ** One GPU per peer *)

(** With at least as many distinct GPUs listed as there are peers, no
    two peers are given the same GPU: lines 104-108 never fail and set
    [CUDA_VISIBLE_DEVICES] to different values on different peers. *)
Theorem gpus_not_shared (gs : list Z) (log_id_dir : string) (r1 r2 : nat) :
  NoDup gs → r1 < length gs → r2 < length gs → r1 ≠ r2 →
  ∃ w1 w2,
    main_wiring (GpuList gs) log_id_dir r1 = Val w1 ∧
    main_wiring (GpuList gs) log_id_dir r2 = Val w2 ∧
    w_cuda_visible_devices w1 ≠ w_cuda_visible_devices w2.
Proof.
  intros Hnd Hr1 Hr2 Hne.
  assert (gs ≠ []) as Hgs by (intros ->; simpl in Hr1; lia).
  destruct (lookup_lt_is_Some_2 gs r1 Hr1) as [g1 Hg1].
  destruct (lookup_lt_is_Some_2 gs r2 Hr2) as [g2 Hg2].
  unfold main_wiring. rewrite !select_gpu_list by done.
  unfold py_getitem. rewrite !Nat.mod_small by done.
  rewrite Hg1, Hg2. cbn [and_then].
  eexists _, _. split; [done|]. split; [done|]. cbn [w_cuda_visible_devices].
  intros Heq. apply pretty_Z_inj in Heq. subst g2.
  apply Hne. by eapply NoDup_lookup.
Qed.

Lemma gpus_not_shared_witness :
  ∃ w1 w2,
    main_wiring (GpuList [0; 1; 3]%Z) "/tmp/Pong/run" 0 = Val w1 ∧
    main_wiring (GpuList [0; 1; 3]%Z) "/tmp/Pong/run" 2 = Val w2 ∧
    w_cuda_visible_devices w1 ≠ w_cuda_visible_devices w2.
Proof.
  apply gpus_not_shared; [|simpl; lia..].
  repeat constructor; intros Hin;
    repeat (apply elem_of_cons in Hin as [Hin|Hin]; [discriminate|]);
    by apply elem_of_nil in Hin.
Defined.

(** ** Starting twice *)

Section StartingTwice.

Variable make_log_id_from_timestamp :
  string → string → string → string → string → string.

(** Lines 43-52: the log directory a run has created makes every later
    run that reads the same timestamp (a start within the same second,
    with the same arguments) fail at rank 0 with [FileExistsError],
    before the broadcast; its other peers never return from theirs. *)
Theorem second_start_collides (l0 l0' : Local) (ls' : list Local)
    (i : nat) (l : Local) :
  log_id_dir_of make_log_id_from_timestamp (l_args l0) (l_clock l0)
    ∉ dirs (l_fs l0) →
  writable (l_fs l0) = true →
  l_args l0' = l_args l0 → l_clock l0' = l_clock l0 →
  l_fs l0'
  = p_fs (main_run_identity make_log_id_from_timestamp (l_args l0)
                            (boot 0 l0 [])).1 →
  ls' !! i = Some l →
  ∃ p0 p,
    launch (λ l, main_run_identity make_log_id_from_timestamp (l_args l))
           (l0' :: ls') !! 0
    = Some (p0, Raise FileExistsError) ∧
    p_sent p0 = [] ∧
    launch (λ l, main_run_identity make_log_id_from_timestamp (l_args l))
           (l0' :: ls') !! S i
    = Some (p, Stall).
Proof.
  intros Hnew Hrw Hargs Hclock Hfs Hl.
  assert (l_fs l0'
          = mkFs (log_id_dir_of make_log_id_from_timestamp (l_args l0)
                                (l_clock l0) :: dirs (l_fs l0)) true)
    as Hfs'.
  { rewrite Hfs. unfold boot. destruct (l_fs l0) as [ds w]. simpl in *.
    subst w. by rewrite run_identity_root_created. }
  assert (main_run_identity make_log_id_from_timestamp (l_args l0')
                            (boot 0 l0' [])
          = (mkPeer 0 (l_heap l0') (l_clock l0') (l_fs l0')
                    [log_id_dir_of make_log_id_from_timestamp (l_args l0')
                                   (l_clock l0')] [] [] [] [],
             Raise FileExistsError)) as Hroot.
  { unfold boot, main_run_identity, os_makedirs, bind, gets, modify, raise,
      with_made. simpl. rewrite Hfs', Hargs, Hclock. simpl.
    rewrite decide_True; [done|]. apply list_elem_of_here. }
  rewrite launch_lookup_root, (launch_lookup_other _ l0' ls' i l Hl), Hroot.
  eexists _, _. split; [done|]. split; [done|]. cbn [fst p_sent].
  unfold boot. by rewrite run_identity_other_stalled by done.
Qed.

End StartingTwice.

Lemma second_start_collides_witness :
  ∃ p0 p,
    launch (λ l, main_run_identity sample_log_id (l_args l))
           (sample_group stale_fs) !! 0
    = Some (p0, Raise FileExistsError) ∧
    p_sent p0 = [] ∧
    launch (λ l, main_run_identity sample_log_id (l_args l))
           (sample_group stale_fs) !! 2
    = Some (p, Stall).
Proof.
  apply (second_start_collides sample_log_id
           (sample_local 4 "2018-11-03_10-00-00" fresh_fs sample_heap_root)
           (sample_local 4 "2018-11-03_10-00-00" stale_fs sample_heap_root)
           [sample_local 4 "2018-11-03_10-00-07" stale_fs sample_heap_host;
            sample_local 4 "2018-11-03_09-59-58" stale_fs
                         sample_heap_device]
           1
           (sample_local 4 "2018-11-03_09-59-58" stale_fs
                         sample_heap_device)).
  - vm_compute. intros Hin.
    repeat (apply elem_of_cons in Hin as [Hin|Hin]; [discriminate|]).
    by apply elem_of_nil in Hin.
  - reflexivity.
  - reflexivity.
  - reflexivity.
  - reflexivity.
  - reflexivity.
Defined.

End Libraries.

(** * The results on the sample data

    The sample MPI library and the sample backend stand in for the
    libraries; the sample helpers for lines 65-70. *)

Ltac in_list :=
  repeat first [apply list_elem_of_here | apply list_elem_of_further].

Ltac not_in_list :=
  let Hin := fresh "Hin" in
  intros Hin;
  repeat (apply elem_of_cons in Hin as [Hin|Hin]; [discriminate|]);
  by apply elem_of_nil in Hin.

Lemma initial_sync_converges_witness :
  ∃ p, launch (λ l, main_sync_params sample_mpi_unfit (l_net l))
              (sample_group fresh_fs) !! 2
       = Some (p, Ret tt) ∧
       param_buffers (p_heap p) sample_net
       = [[x2a; x2a]; [x2a; x00]; [x2a; x02; x03; x04]].
Proof.
  destruct (initial_sync_converges sample_mpi_unfit
              (sample_local 4 "2018-11-03_10-00-00" fresh_fs sample_heap_root)
              [sample_local 4 "2018-11-03_10-00-07" fresh_fs sample_heap_host;
               sample_local 4 "2018-11-03_09-59-58" fresh_fs
                            sample_heap_device]
              2
              (sample_local 4 "2018-11-03_09-59-58" fresh_fs
                            sample_heap_device))
    as (p & Hrun & Hbuf & _).
  - intros l' Hin. repeat (apply elem_of_cons in Hin as [->|Hin]);
      [reflexivity..|by apply elem_of_nil in Hin].
  - reflexivity.
  - exists p. split; [exact Hrun|exact Hbuf].
Defined.






Lemma initial_sync_checks_sizes_only_witness :
  ∃ p, launch (λ l, main_sync_params sample_mpi_unfit (l_net l))
              [sample_local 4 "a" fresh_fs sample_heap_root;
               mkLocal (sample_args 4) "b" fresh_fs
                       (λ t, mkTensor [1; 2] uint8 cpu [x00; x00])
                       [mkModule "" [("w", 7)] []]] !! 1
       = Some (p, Ret tt) ∧
       t_data (p_heap p 7) = [x2a; x2a] ∧ t_shape (p_heap p 7) = [1; 2] ∧
       length (p_inbox p) = 2.
Proof.
  destruct (initial_sync_checks_sizes_only sample_mpi_unfit
              (sample_local 4 "a" fresh_fs sample_heap_root)
              [mkLocal (sample_args 4) "b" fresh_fs
                       (λ t, mkTensor [1; 2] uint8 cpu [x00; x00])
                       [mkModule "" [("w", 7)] []]]
              0
              (mkLocal (sample_args 4) "b" fresh_fs
                       (λ t, mkTensor [1; 2] uint8 cpu [x00; x00])
                       [mkModule "" [("w", 7)] []])
              [0] [1; 4] eq_refl eq_refl eq_refl)
    as (p & Hrun & Hbuf & Htop & Hin).
  exists p. split; [exact Hrun|].
  split; [by injection Hbuf|]. split; [by injection Htop|].
  by rewrite Hin.
Defined.

Lemma initial_sync_starved_witness :
  ∃ p, launch (λ l, main_sync_params sample_mpi_unfit (l_net l))
              [mkLocal (sample_args 4) "a" fresh_fs sample_heap_root
                       [mkModule "" [("w", 0)] []];
               mkLocal (sample_args 4) "b" fresh_fs sample_heap_host
                       [mkModule "" [("w", 0); ("b", 4)] []]] !! 1
       = Some (p, Stall) ∧
       length (p_trace p) = 2 ∧
       t_data (p_heap p 4) = [x07; x02; x03; x04].
Proof.
  destruct (initial_sync_starved sample_mpi_unfit
              (mkLocal (sample_args 4) "a" fresh_fs sample_heap_root
                       [mkModule "" [("w", 0)] []])
              [mkLocal (sample_args 4) "b" fresh_fs sample_heap_host
                       [mkModule "" [("w", 0); ("b", 4)] []]]
              0
              (mkLocal (sample_args 4) "b" fresh_fs sample_heap_host
                       [mkModule "" [("w", 0); ("b", 4)] []])
              [0] [] 4 eq_refl eq_refl eq_refl)
    as (p & Hrun & Htrace & Hframe & _).
  exists p. split; [exact Hrun|]. split; [by rewrite Htrace|].
  rewrite Hframe; [reflexivity|]. not_in_list.
Defined.

Lemma initial_sync_spares_buffers_witness :
  ∃ p, launch (λ l, main_sync_params sample_mpi_unfit (l_net l))
              (sample_group fresh_fs) !! 1
       = Some (p, Ret tt) ∧
       p_heap p 2 = sample_heap_host 2.
Proof.
  destruct (initial_sync_spares_buffers sample_mpi_unfit
              (sample_local 4 "2018-11-03_10-00-00" fresh_fs sample_heap_root)
              [sample_local 4 "2018-11-03_10-00-07" fresh_fs sample_heap_host;
               sample_local 4 "2018-11-03_09-59-58" fresh_fs
                            sample_heap_device]
              1
              (sample_local 4 "2018-11-03_10-00-07" fresh_fs
                            sample_heap_host))
    as (p & Hrun & Hframe & _).
  - intros l' Hin. repeat (apply elem_of_cons in Hin as [->|Hin]);
      [reflexivity..|by apply elem_of_nil in Hin].
  - reflexivity.
  - exists p. split; [exact Hrun|]. apply Hframe. vm_compute. not_in_list.
Defined.

Lemma main_starts_every_peer_witness :
  ∃ p, launch (λ l, main sample_mpi_unfit sample_log_id unit unit
                         sample_make_env sample_manual_seed
                         sample_head_shapes sample_make_network (l_args l))
              (sample_group fresh_fs) !! 2
       = Some (p, Ret (mkStarted
                         (PyStr "2018-11-03_10-00-00")
                         (Some (log_id_dir_of sample_log_id (sample_args 4)
                                              "2018-11-03_10-00-00"))
                         42 46 sample_net)) ∧
       param_buffers (p_heap p) sample_net
       = [[x2a; x2a]; [x2a; x00]; [x2a; x02; x03; x04]].
Proof.
  destruct (main_starts_every_peer sample_mpi_unfit sample_log_id unit unit
              sample_make_env sample_manual_seed sample_head_shapes
              sample_make_network
              (sample_local 4 "2018-11-03_10-00-00" fresh_fs sample_heap_root)
              [sample_local 4 "2018-11-03_10-00-07" fresh_fs sample_heap_host;
               sample_local 4 "2018-11-03_09-59-58" fresh_fs
                            sample_heap_device]
              2
              (sample_local 4 "2018-11-03_09-59-58" fresh_fs
                            sample_heap_device))
    as (p & Hrun & Hbuf & _).
  - intros l' Hin. repeat (apply elem_of_cons in Hin as [->|Hin]);
      [by split..|by apply elem_of_nil in Hin].
  - intros [|[|[|r']]] l' p Hl' _ _; simpl in Hl'; [| | |done];
      injection Hl' as <-; reflexivity.
  - vm_compute. not_in_list.
  - reflexivity.
  - reflexivity.
  - exists p. split; [exact Hrun|exact Hbuf].
Defined.


Lemma sync_group_converges_witness :
  ∃ s' vs,
    (group_sync sample_backend sample_net_of sample_grp None
                (sample_dist 2 sample_heap_root [])
                [sample_dist 0 sample_heap_host [];
                 sample_dist 1 sample_heap_device []]).2 !! 1
    = Some (s', Ret vs) ∧
    map (λ t, t_data (d_heap s' t)) [1; 2; 4]
    = [[x2a; x00]; [x2a; x01]; [x2a; x02; x03; x04]].
Proof.
  destruct (sync_group_converges sample_backend sample_net_of sample_grp
              (sample_dist 2 sample_heap_root [])
              [sample_dist 0 sample_heap_host [];
               sample_dist 1 sample_heap_device []]
              1 (sample_dist 1 sample_heap_device []))
    as (s' & vs & Hrun & _ & Hdata & _).
  - constructor.
  - reflexivity.
  - constructor.
  - simpl. in_list.
  - simpl. in_list.
  - vm_compute. lia.
  - reflexivity.
  - vm_compute. repeat constructor; not_in_list.
  - exists s', vs. split; [exact Hrun|exact Hdata].
Defined.

Lemma sync_stops_when_starved_witness :
  let s := sample_dist 1 sample_heap_host
                       [payload_of (sample_heap_root 1)] in
  matched flat_net 0 sample_grp s ∧
  ∃ s',
    sync sample_backend flat_net 0 sample_grp None s
    = (s', Raise RuntimeError) ∧
    t_data (d_heap s' 1) = [x2a; x00] ∧ t_data (d_heap s' 2) = [x07; x01].
Proof.
  intros s.
  assert (matched flat_net 0 sample_grp s) as Hmatched.
  { split; [in_list|]. split; [in_list|]. vm_compute. tauto. }
  split; [exact Hmatched|].
  destruct (sync_stops_when_starved sample_backend flat_net 0 sample_grp
              [1] [4] 2 s Hmatched)
    as (s' & Hrun & Hdata & Hframe & _).
  - constructor.
  - vm_compute. lia.
  - reflexivity.
  - reflexivity.
  - exists s'. split; [exact Hrun|]. split.
    + assert (NoDup [1]) as Hnd by (repeat constructor; not_in_list).
      specialize (Hdata Hnd). by injection Hdata.
    + rewrite Hframe; [reflexivity|]. not_in_list.
Defined.

Lemma sync_outside_the_group_witness :
  let s := sample_dist 5 sample_heap_host [] in
  (d_rank s ∉ sample_grp) ∧
  sync sample_backend sample_net 0 sample_grp (Some true) s
  = (s, Ret [VNone; VNone; VNone; VNone; VNone]) ∧
  sync sample_backend sample_net 0 sample_grp None s
  = (s, Raise AttributeError) ∧
  sync sample_backend sample_net 7 sample_grp None
       (sample_dist 1 sample_heap_host [])
  = (sample_dist 1 sample_heap_host [], Raise RuntimeError).
Proof.
  intros s.
  assert (d_rank s ∉ sample_grp) as Hout by (simpl; not_in_list).
  assert (7 ∉ sample_grp) as Hroot by not_in_list.
  split; [exact Hout|].
  destruct (sync_outside_the_group sample_backend sample_net 0 sample_grp
              (Some true) s (or_introl Hout)) as (Hs1 & Ho1 & _).
  destruct (sync_outside_the_group sample_backend sample_net 0 sample_grp
              None s (or_introl Hout)) as (Hs2 & Ho2 & _).
  destruct (sync_outside_the_group sample_backend sample_net 7 sample_grp
              None (sample_dist 1 sample_heap_host []) (or_intror Hroot))
    as (Hs3 & _ & Ho3).
  split; [|split].
  - rewrite (surjective_pairing (sync _ _ _ _ _ _)), Hs1, (Ho1 Hout).
    reflexivity.
  - rewrite (surjective_pairing (sync _ _ _ _ _ _)), Hs2, (Ho2 Hout).
    reflexivity.
  - rewrite (surjective_pairing (sync _ _ _ _ _ _)), Hs3, Ho3;
      [reflexivity|simpl; in_list].
Defined.
